(** * Subtitle track composition: a model of [download_sync_and_embed.py]

    The development embeds the two functions that decide the layout of
    the subtitle tracks of a remuxed video,

    - [get_embedded_subtitles]  (the stream inventory reader), and
    - [embed_subtitles_into_video]  (the composition planner together
      with the construction of the ffmpeg command line),

    and the path computations of their callers, [process_video] and
    [main].  External processes and the file system are inputs of the
    model: the outcome of the ffprobe call is a value of type [probe],
    and [Path.exists] is a function from paths to booleans. *)

From stdpp Require Import base option list sorting strings pretty gmap.
From Stdlib Require Import ZArith Ascii.

Local Open Scope string_scope.
Local Open Scope nat_scope.
Local Open Scope list_scope.

(** ** Python values, exceptions and the error monad *)

Module Py.

(** The exceptions that the modelled code can meet. *)
Inductive exn : Type :=
| OSError              (* the executable could not be started *)
| CalledProcessError   (* [check=True] and a non-zero exit status *)
| JSONDecodeError      (* [json.loads] on text that is not JSON *)
| AttributeError       (* a method that the value does not have *)
| TypeError.           (* iteration over a value that is not iterable *)

Global Instance exn_eq_dec : EqDecision exn.
Proof. solve_decision. Defined.

(** A computation either returns a value or raises. *)
Inductive result (A : Type) : Type :=
| Ok (a : A)
| Raise (e : exn).
Global Arguments Ok {A} a.
Global Arguments Raise {A} e.

Definition bind {A B} (m : result A) (k : A → result B) : result B :=
  match m with
  | Ok a => k a
  | Raise e => Raise e
  end.

(** What [json.loads] returns.  An object is the Python dict that the
    decoder builds, kept as an association list in insertion order. *)
#[local] Unset Elimination Schemes.
Inductive json : Type :=
| JNull
| JBool (b : bool)
| JInt (z : Z)
| JFloat (literal : string)
| JStr (s : string)
| JArr (items : list json)
| JObj (fields : list (string * json)).
#[local] Set Elimination Schemes.

(** [d[k]] of an association list: the first binding of [k]. *)
Fixpoint assoc {V} (k : string) (d : list (string * V)) : option V :=
  match d with
  | [] => None
  | (k', v) :: d' => if decide (k' = k) then Some v else assoc k d'
  end.

(** [v.get(k, dflt)]: only a dict has the method. *)
Definition dict_get (k : string) (dflt : json) (v : json) : result json :=
  match v with
  | JObj fields => Ok (default dflt (assoc k fields))
  | _ => Raise AttributeError
  end.

(** The characters of a string, one string each. *)
Fixpoint chars (s : string) : list string :=
  match s with
  | EmptyString => []
  | String c s' => String c EmptyString :: chars s'
  end.

(** The elements that a [for] loop over [v] visits: the items of a
    list, the keys of a dict, the characters of a string. *)
Definition iter (v : json) : result (list json) :=
  match v with
  | JArr items => Ok items
  | JObj fields => Ok (JStr <$> fields.*1)
  | JStr s => Ok (JStr <$> chars s)
  | _ => Raise TypeError
  end.

(** [str.lower] on ASCII text: language tags and file suffixes. *)
Definition lower_ascii (c : ascii) : ascii :=
  let n := nat_of_ascii c in
  if ((65 <=? n) && (n <=? 90))%nat then ascii_of_nat (n + 32)%nat else c.

Fixpoint lower (s : string) : string :=
  match s with
  | EmptyString => EmptyString
  | String c s' => String (lower_ascii c) (lower s')
  end.

(** [v.lower()]: only a string has the method. *)
Definition lower_method (v : json) : result string :=
  match v with
  | JStr s => Ok (lower s)
  | _ => Raise AttributeError
  end.

End Py.

Import Py.

(** [x ← m; k] runs [m] and, unless it raises, goes on with [k]. *)
Global Instance result_bind : MBind result := λ A B k m, bind m k.

(** ** Paths

    A [pathlib.Path] that has been resolved: the components below the
    root.  [main] resolves the target directory, and every other path
    is built from it with [/]. *)

Definition Path : Type := list string.

(** [str(p)] *)
Definition str (p : Path) : string :=
  match p with
  | [] => "/"
  | _ => String.concat "" ((λ c, "/" +:+ c) <$> p)
  end.

(** [p / c] for a single component [c] *)
Definition truediv (p : Path) (c : string) : Path := p ++ [c].

(** [p.name] *)
Definition name (p : Path) : string := default "" (last p).

(** [s.rfind(".")] *)
Fixpoint rfind_dot (s : string) : option nat :=
  match s with
  | EmptyString => None
  | String c s' =>
      match rfind_dot s' with
      | Some i => Some (S i)
      | None => if decide (c = "."%char) then Some 0 else None
      end
  end.

(** [p.suffix]: the name from its last dot on, unless that dot opens or
    closes the name. *)
Definition suffix (p : Path) : string :=
  let n := name p in
  match rfind_dot n with
  | Some i =>
      if (0 <? i) && (i <? String.length n - 1)
      then String.substring i (String.length n - i) n
      else ""
  | None => ""
  end.

(** ** The stream inventory reader *)

(** What happens when [get_embedded_subtitles] runs ffprobe and decodes
    its output. *)
Inductive probe : Type :=
| ProbeNotStarted                   (* [subprocess.run] raises OSError *)
| ProbeExitNonZero                  (* [subprocess.run] raises CalledProcessError *)
| ProbeStdout (data : option json). (* exit status 0; [json.loads(result.stdout)],
                                       [None] when the text is not JSON *)

(** One entry of the list that the reader returns. *)
Record sub_info : Type := SubInfo {
  index : json;          (* [stream.get("index")], [JNull] for None *)
  stream_index : nat;    (* position among the subtitle streams *)
  language : json        (* the language tag, "und" when there is none *)
}.

(** The dict that the comprehension builds for the [i]-th stream. *)
Definition stream_entry (i : nat) (stream : json) : result sub_info :=
  idx ← dict_get "index" JNull stream;
  tags ← dict_get "tags" (JObj []) stream;
  lang ← dict_get "language" (JStr "und") tags;
  Ok (SubInfo idx i lang).

(** The comprehension over [enumerate(streams)], counting from [i]. *)
Fixpoint stream_entries (i : nat) (streams : list json) : result (list sub_info) :=
  match streams with
  | [] => Ok []
  | stream :: rest =>
      entry ← stream_entry i stream;
      entries ← stream_entries (S i) rest;
      Ok (entry :: entries)
  end.

(** The body of the [try]. *)
Definition get_embedded_subtitles_body (p : probe) : result (list sub_info) :=
  match p with
  | ProbeNotStarted => Raise OSError
  | ProbeExitNonZero => Raise CalledProcessError
  | ProbeStdout None => Raise JSONDecodeError
  | ProbeStdout (Some data) =>
      streams ← dict_get "streams" (JArr []) data;
      items ← iter streams;
      stream_entries 0 items
  end.

(** [get_embedded_subtitles]: the only handler is
    [except subprocess.CalledProcessError: return []]. *)
Definition get_embedded_subtitles (p : probe) : result (list sub_info) :=
  match get_embedded_subtitles_body p with
  | Raise CalledProcessError => Ok []
  | r => r
  end.

(** ** The composition planner *)

(** An entry of [all_subs]: [(input_idx, stream_idx, lang, is_new)]. *)
Definition sub_item : Type := nat * nat * string * bool.

Definition input_idx (item : sub_item) : nat := item.1.1.1.
Definition stream_idx (item : sub_item) : nat := item.1.1.2.
Definition lang (item : sub_item) : string := item.1.2.
Definition is_new (item : sub_item) : bool := item.2.

(** [spanish_is_first]: the truth value of
    [existing_subs and existing_subs[0]["language"].lower() == "spa"]. *)
Definition spanish_is_first (existing_subs : list sub_info) : result bool :=
  match existing_subs with
  | [] => Ok false
  | first :: _ =>
      l ← lower_method (language first);
      Ok (bool_decide (l = "spa"))
  end.

(** The codec of the new tracks, from the lowered suffix of the video. *)
Definition new_sub_codec (suffix : string) : string :=
  if decide (suffix = ".mp4") then "mov_text"
  else if decide (suffix = ".mkv") then "srt"
  else "srt".

(** The loop over [existing_subs]: every stream whose lowered language
    is not a key of [subtitle_files], as an entry of input 0. *)
Fixpoint existing_items (subtitle_files : list (string * Path))
    (existing_subs : list sub_info) : result (list sub_item) :=
  match existing_subs with
  | [] => Ok []
  | info :: rest =>
      l ← lower_method (language info);
      items ← existing_items subtitle_files rest;
      Ok (if decide (l ∈ subtitle_files.*1) then items
          else (0, stream_index info, l, false) :: items)
  end.

(** The loop over [enumerate(sub_inputs)]: input [i + 1], stream 0. *)
Definition new_items (sub_inputs : list (string * Path)) : list sub_item :=
  imap (λ i entry, (i + 1, 0, entry.1, true)) sub_inputs.

(** [sort_key] *)
Definition sort_key (item : sub_item) : nat * nat * nat :=
  let '(input_idx, stream_idx, lang, is_new) := item in
  if decide (lang = "spa") then (0, input_idx, stream_idx)
  else (1, input_idx, stream_idx).

(** [<] on the keys: tuples compare lexicographically. *)
Definition key_ltb (k1 k2 : nat * nat * nat) : bool :=
  let '(a1, b1, c1) := k1 in
  let '(a2, b2, c2) := k2 in
  (a1 <? a2) || ((a1 =? a2) && ((b1 <? b2) || ((b1 =? b2) && (c1 <? c2)))).

(** [list.sort(key=sort_key)] is stable, and a stable sort has one
    possible result: that of inserting the entries one by one, from the
    last to the first, each in front of the first entry whose key is
    not smaller than its own. *)
Fixpoint sort_insert (item : sub_item) (sorted : list sub_item) : list sub_item :=
  match sorted with
  | [] => [item]
  | item' :: rest =>
      if key_ltb (sort_key item') (sort_key item)
      then item' :: sort_insert item rest
      else item :: sorted
  end.

Fixpoint list_sort (items : list sub_item) : list sub_item :=
  match items with
  | [] => []
  | item :: rest => sort_insert item (list_sort rest)
  end.

(** The [-map] directives of the subtitle tracks. *)
Definition map_args (all_subs : list sub_item) : list string :=
  all_subs ≫= λ '(input_idx, stream_idx, lang, is_new),
    if decide (input_idx = 0)
    then ["-map"; "0:s:" +:+ pretty stream_idx]
    else ["-map"; pretty input_idx +:+ ":0"].

(** Codec and language of each output track. *)
Definition codec_args (codec : string) (all_subs : list sub_item) : list string :=
  mjoin (imap (λ out_idx '(input_idx, stream_idx, lang, is_new),
    [ "-c:s:" +:+ pretty out_idx;
      if is_new : bool then codec else "copy";
      "-metadata:s:s:" +:+ pretty out_idx;
      "language=" +:+ lang ]) all_subs).

(** What the function asks of the outside world. *)
Inductive effect : Type :=
| Copy2 (src dst : string)         (* [shutil.copy2(src, dst)] *)
| Run (cmd : list string).         (* [subprocess.run(cmd, ...)] *)

(** What the function decides: a plain copy, or a remux that gives the
    new tracks the codec [codec] and lays the tracks out as [all_subs]. *)
Inductive plan : Type :=
| NoOp
| Remux (codec : string) (all_subs : list sub_item).

Section Embed.

(** The state of the file system during the call: [Path.exists], for
    the queries that it answers; an OSError that it lets through is not
    part of the model. *)
Variable exists_ : Path → bool.

(** [sub_inputs]: the entries of [subtitle_files] whose file exists. *)
Definition sub_inputs (subtitle_files : list (string * Path)) : list (string * Path) :=
  filter (λ entry, exists_ entry.2) subtitle_files.

(** [all_subs] before it is sorted. *)
Definition candidates (existing_subs : list sub_info)
    (subtitle_files : list (string * Path)) : result (list sub_item) :=
  existing ← existing_items subtitle_files existing_subs;
  Ok (existing ++ new_items (sub_inputs subtitle_files)).

(** The decisions of [embed_subtitles_into_video], in its order. *)
Definition plan_subtitles (p : probe) (video_path : Path)
    (subtitle_files : list (string * Path)) : result plan :=
  existing_subs ← get_embedded_subtitles p;
  spanish_first ← spanish_is_first existing_subs;
  if bool_decide (subtitle_files = []) && bool_decide (existing_subs = []) then Ok NoOp
  else if bool_decide (subtitle_files = []) && spanish_first then Ok NoOp
  else
    let codec := new_sub_codec (lower (suffix video_path)) in
    all_subs ← candidates existing_subs subtitle_files;
    let all_subs := list_sort all_subs in
    if bool_decide (all_subs = []) then Ok NoOp
    else Ok (Remux codec all_subs).

(** The command line of the remux. *)
Definition ffmpeg_cmd (video_path output_path : Path)
    (subtitle_files : list (string * Path))
    (codec : string) (all_subs : list sub_item) : list string :=
  ["ffmpeg"; "-y"; "-i"; str video_path]
  ++ (sub_inputs subtitle_files ≫= λ entry, ["-i"; str entry.2])
  ++ ["-map"; "0:v"; "-map"; "0:a?"]
  ++ map_args all_subs
  ++ ["-c:v"; "copy"; "-c:a"; "copy"]
  ++ codec_args codec all_subs
  ++ [str output_path].

(** [embed_subtitles_into_video], up to the effect it performs.  Its
    return value is True after a copy and the success of ffmpeg after a
    remux. *)
Definition embed_subtitles_into_video (p : probe) (video_path output_path : Path)
    (subtitle_files : list (string * Path)) : result effect :=
  pl ← plan_subtitles p video_path subtitle_files;
  match pl with
  | NoOp => Ok (Copy2 (str video_path) (str output_path))
  | Remux codec all_subs =>
      Ok (Run (ffmpeg_cmd video_path output_path subtitle_files codec all_subs))
  end.

End Embed.

(** ** The callers *)

(** The source video of [process_video] as [main] passes it:
    [originals_dir / video_path.name], under [target_path / "Originals"]. *)
Definition original_in_originals (target_path video_path : Path) : Path :=
  truediv (truediv target_path "Originals") (name video_path).

(** [output_path] in [process_video]: [output_dir / video_path.name]. *)
Definition output_path_of (output_dir video_path : Path) : Path :=
  truediv output_dir (name video_path).

(** ** The languages of the embedded streams *)

(** The set comprehension [{info["language"].lower() for info in embedded}]. *)
Fixpoint lowered_languages (embedded : list sub_info) : result (gset string) :=
  match embedded with
  | [] => Ok ∅
  | info :: rest =>
      l ← lower_method (language info);
      langs ← lowered_languages rest;
      Ok ({[ l ]} ∪ langs)
  end.

(** [get_embedded_languages] *)
Definition get_embedded_languages (p : probe) : result (gset string) :=
  embedded ← get_embedded_subtitles p;
  lowered_languages embedded.

(** A stream that the comprehension of the reader accepts: a dict whose
    "tags", when it has them, are a dict. *)
Definition stream_ok (stream : json) : bool :=
  match stream with
  | JObj fields =>
      match assoc "tags" fields with
      | None | Some (JObj _) => true
      | Some _ => false
      end
  | _ => false
  end.

(** ** The secrets file and the provider configurations *)

(** The ASCII characters that [str.strip] removes: tab to carriage
    return, the four separators and the space. *)
Definition is_space (c : ascii) : bool :=
  let n := nat_of_ascii c in
  ((9 <=? n) && (n <=? 13)) || ((28 <=? n) && (n <=? 32)).

(** [s.lstrip()] *)
Fixpoint lstrip (s : string) : string :=
  match s with
  | EmptyString => EmptyString
  | String c s' => if is_space c then lstrip s' else s
  end.

(** [s.rstrip()] *)
Fixpoint rstrip (s : string) : string :=
  match s with
  | EmptyString => EmptyString
  | String c s' =>
      match rstrip s' with
      | EmptyString => if is_space c then EmptyString else String c EmptyString
      | r => String c r
      end
  end.

(** [s.strip()] *)
Definition strip (s : string) : string := lstrip (rstrip s).

(** [s.startswith("#")] *)
Definition starts_with_hash (s : string) : bool :=
  match s with
  | String c _ => bool_decide (c = "#"%char)
  | EmptyString => false
  end.

(** [s.split("=", 1)] when ["=" in s]: the text before the first "="
    and the text after it; [None] when there is no "=" in [s]. *)
Fixpoint split_eq (s : string) : option (string * string) :=
  match s with
  | EmptyString => None
  | String c s' =>
      if decide (c = "="%char) then Some (EmptyString, s')
      else match split_eq s' with
           | Some (key, value) => Some (String c key, value)
           | None => None
           end
  end.

(** The body of the loop of [load_secrets] for one line: the binding
    that the line adds, if any. *)
Definition parse_line (line : string) : option (string * string) :=
  let line := strip line in
  if bool_decide (line ≠ "") && negb (starts_with_hash line) then
    match split_eq line with
    | Some (key, value) => Some (strip key, strip value)
    | None => None
    end
  else None.

(** [load_secrets], from the lines of secrets.txt; [None] when the file
    does not exist. *)
Definition load_secrets (file : option (list string)) : gmap string string :=
  match file with
  | None => ∅
  | Some lines =>
      foldl (λ secrets line,
               match parse_line line with
               | Some (key, value) => <[key := value]> secrets
               | None => secrets
               end) ∅ lines
  end.

(** The truth value of [secrets.get(key)]. *)
Definition has_secret (secrets : gmap string string) (key : string) : bool :=
  match secrets !! key with
  | Some value => bool_decide (value ≠ "")
  | None => false
  end.

(** One block of [build_provider_configs]. *)
Definition add_provider (secrets : gmap string string)
    (provider username password : string)
    (configs : gmap string (gmap string string)) : gmap string (gmap string string) :=
  if has_secret secrets username && has_secret secrets password
  then <[provider := {[ "username" := default "" (secrets !! username);
                        "password" := default "" (secrets !! password) ]}]> configs
  else configs.

(** [build_provider_configs], from the result of [load_secrets]. *)
Definition build_provider_configs (secrets : gmap string string) :
    gmap string (gmap string string) :=
  add_provider secrets "addic7ed" "ADDIC7ED_USERNAME" "ADDIC7ED_PASSWORD"
    (add_provider secrets "opensubtitles"
       "OPENSUBTITLES_USERNAME" "OPENSUBTITLES_PASSWORD" ∅).

(** ** Subtitle files beside the video *)

(** ["/" in s] *)
Fixpoint contains_slash (s : string) : bool :=
  match s with
  | EmptyString => false
  | String c s' => bool_decide (c = "/"%char) || contains_slash s'
  end.

(** [s[:-n]] for [0 < n]: [s] without its last [n] characters. *)
Definition drop_last (n : nat) (s : string) : string :=
  String.substring 0 (String.length s - n) s.

(** [p.with_suffix(new)]: the path with the suffix of its name replaced;
    [None] stands for the ValueError that pathlib raises for a suffix
    with a separator, a suffix that does not start with a dot or is a
    lone dot, and a path with an empty name. *)
Definition with_suffix (p : Path) (new : string) : option Path :=
  if contains_slash new then None
  else if bool_decide (new ≠ "") && negb (String.prefix "." new)
          || bool_decide (new = ".") then None
  else if bool_decide (name p = "") then None
  else
    let old := suffix p in
    let stem := if bool_decide (old = "") then name p
                else drop_last (String.length old) (name p) in
    Some (removelast p ++ [stem +:+ new]).

(** [get_subtitle_path] *)
Definition get_subtitle_path (video_path : Path) (lang_code : string) : option Path :=
  with_suffix video_path ("." +:+ lang_code +:+ ".srt").

(** [VIDEO_EXTENSIONS] *)
Definition VIDEO_EXTENSIONS : list string :=
  [".mp4"; ".mkv"; ".avi"; ".mov"; ".wmv"; ".webm"].

(** [is_video_file], given [Path.is_file]. *)
Definition is_video_file (is_file : Path → bool) (path : Path) : bool :=
  is_file path && bool_decide (lower (suffix path) ∈ VIDEO_EXTENSIONS).

(** ** Conversion to UTF-8 *)

(** [s.endswith(tail)] *)
Definition ends_with (s tail : string) : bool :=
  (String.length tail <=? String.length s) &&
  bool_decide (String.substring (String.length s - String.length tail)
                 (String.length tail) s = tail).

(** The encoding that [convert_to_utf8] passes to iconv, from what
    [detect_encoding] returned ([None] for None). *)
Definition encoding_to_use (detected : option string) (fallback : string) : string :=
  let detected :=
    match detected with
    | Some enc =>
        if bool_decide (enc ≠ "") && ends_with (lower enc) "-sig"
        then Some (drop_last 4 enc) else Some enc
    | None => None
    end in
  match detected with
  | Some enc => if bool_decide (enc ≠ "") then enc else fallback
  | None => fallback
  end.

(** What [convert_to_utf8] does to the file system. *)
Inductive conversion : Type :=
| Iconv (cmd : list string)          (* [subprocess.run(cmd, check=True, ...)] *)
| Replace (src dst : string).        (* [os.replace(src, dst)] *)

(** [convert_to_utf8]: its return value and what it has started, given
    what [detect_encoding], iconv and [os.replace] do. *)
Definition convert_to_utf8 (detect : result (option string))
    (iconv replace : result unit)
    (subtitle_path fallback_encoding : string) : bool * list conversion :=
  match detect with
  | Raise _ => (false, [])
  | Ok detected =>
      let temp_file := subtitle_path +:+ ".utf8" in
      let cmd := ["iconv"; "-f"; encoding_to_use detected fallback_encoding;
                  "-t"; "UTF-8"; subtitle_path; "-o"; temp_file] in
      match iconv with
      | Raise _ => (false, [Iconv cmd])
      | Ok _ =>
          match replace with
          | Raise _ => (false, [Iconv cmd; Replace temp_file subtitle_path])
          | Ok _ => (true, [Iconv cmd; Replace temp_file subtitle_path])
          end
      end
  end.

(** ** The batch *)

(** The loop of [main] over the videos: each video with what the body
    of the [try] did, an exception or the pair that [process_video]
    returned.  The state is [(success_count, missing_spanish)]. *)
Definition main_loop (videos : list (string * result (bool * bool))) : nat * list string :=
  foldl (λ '(success_count, missing_spanish) '(video_name, outcome),
           match outcome with
           | Ok (success, has_spanish) =>
               (if success : bool then success_count + 1 else success_count,
                if has_spanish : bool then missing_spanish
                else missing_spanish ++ [video_name])
           | Raise _ => (success_count, missing_spanish ++ [video_name])
           end) (0, []) videos.

(** The exit code that [main] returns after the loop. *)
Definition main_exit (videos : list (string * result (bool * bool))) : nat :=
  if (main_loop videos).1 =? length videos then 0 else 1.

(** ** Scenarios *)

Definition stream (l : string) : json :=
  JObj [("index", JInt 2); ("tags", JObj [("language", JStr l)])].

Definition probe_of (langs : list string) : probe :=
  ProbeStdout (Some (JObj [("streams", JArr (stream <$> langs))])).

Definition movie : Path := ["lib"; "Originals"; "movie.mkv"].
Definition movie_out : Path := ["lib"; "movie.mkv"].
Definition clip : Path := ["lib"; "Originals"; "clip.MP4"].
Definition spa_srt : Path := ["lib"; "Originals"; "movie.spa.srt"].
Definition eng_srt : Path := ["lib"; "Originals"; "movie.eng.srt"].

(** A file system that holds every file, and one without [spa_srt]. *)
Definition all_present : Path → bool := λ _, true.
Definition spa_missing : Path → bool := λ p, negb (bool_decide (p = spa_srt)).

(** ** Vocabulary of the statements *)

(** The track carries the preferred language, the one of [sort_key]. *)
Definition preferred (item : sub_item) : Prop := lang item = "spa".

Global Instance preferred_dec (item : sub_item) : Decision (preferred item).
Proof. unfold preferred. apply _. Defined.

(** [a] lies before [b] in the order of the inputs and of their streams. *)
Definition before (a b : sub_item) : Prop :=
  input_idx a < input_idx b ∨
  (input_idx a = input_idx b ∧ stream_idx a < stream_idx b).

(** The tracks of a plan; a plain copy lays out none. *)
Definition slots (pl : plan) : list sub_item :=
  match pl with
  | NoOp => []
  | Remux _ all_subs => all_subs
  end.

(** The preferred language is the lowered language of an existing
    stream that no new file replaces. *)
Definition preferred_survives (files : list (string * Path))
    (existing_subs : list sub_info) : Prop :=
  ∃ info, info ∈ existing_subs ∧
          lower_method (language info) = Ok "spa" ∧ "spa" ∉ files.*1.

(** The preferred language is a key of [subtitle_files], and its file
    exists. *)
Definition preferred_supplied (exists_ : Path → bool)
    (files : list (string * Path)) : Prop :=
  ∃ path, ("spa", path) ∈ files ∧ exists_ path.

(** The body of the loop of [main] did not establish that the video has
    Spanish subtitles: it raised, or [process_video] said so. *)
Definition lacks_spanish (outcome : result (bool * bool)) : bool :=
  match outcome with
  | Ok (_, true) => false
  | _ => true
  end.

(** * Properties *)

(** ** The error monad *)

Lemma bind_Ok {A B} (m : result A) (k : A → result B) (b : B) :
  m ≫= k = Ok b ↔ ∃ a, m = Ok a ∧ k a = Ok b.
Proof.
  destruct m as [a|e]; simpl; split.
  - intros Hk. by exists a.
  - by intros (a' & [= <-] & Hk).
  - intros [=].
  - by intros (a' & [=] & _).
Qed.

(** Splits a hypothesis [x ← m; k = Ok b] into the two runs. *)
Ltac bind_inv H :=
  let a := fresh "a" in
  let Ha := fresh "H" a in
  apply bind_Ok in H as (a & Ha & H).

(** ** The reader *)

Lemma stream_entries_index (i : nat) (streams : list json) (l : list sub_info) :
  stream_entries i streams = Ok l →
  stream_index <$> l = seq i (length l).
Proof.
  revert i l. induction streams as [|stream rest IH]; intros i l H; simpl in H.
  - by injection H as <-.
  - bind_inv H. bind_inv H. injection H as <-.
    unfold stream_entry in Ha. bind_inv Ha. bind_inv Ha. bind_inv Ha.
    injection Ha as <-. simpl. f_equal. by apply IH.
Qed.

(** The reader numbers the streams by their position. *)
Lemma get_embedded_subtitles_index (p : probe) (l : list sub_info) :
  get_embedded_subtitles p = Ok l →
  stream_index <$> l = seq 0 (length l).
Proof.
  unfold get_embedded_subtitles.
  destruct (get_embedded_subtitles_body p) as [l'|e] eqn:Hbody.
  - intros [= <-]. destruct p as [| |[data|]]; simpl in Hbody; try done.
    bind_inv Hbody. bind_inv Hbody. by eapply stream_entries_index.
  - destruct e; try done. by intros [= <-].
Qed.


(** ** The sort *)

Lemma key_ltb_spec (a1 b1 c1 a2 b2 c2 : nat) :
  key_ltb (a1, b1, c1) (a2, b2, c2) = true ↔
  a1 < a2 ∨ (a1 = a2 ∧ (b1 < b2 ∨ (b1 = b2 ∧ c1 < c2))).
Proof.
  unfold key_ltb.
  rewrite !orb_true_iff, !andb_true_iff, !orb_true_iff, !andb_true_iff.
  rewrite !Nat.ltb_lt, !Nat.eqb_eq. tauto.
Qed.

(** Unfolds the keys of two entries and decides their languages. *)
Ltac compare_keys :=
  unfold preferred, before, sort_key, lang, input_idx, stream_idx; simpl;
  intros; repeat case_decide; try done.

Lemma key_ltb_preferred (x y : sub_item) :
  preferred x → before x y → key_ltb (sort_key y) (sort_key x) = false.
Proof.
  destruct x as [[[ix sx] lx] nx], y as [[[iy sy] ly] ny]. compare_keys;
    apply not_true_iff_false; rewrite key_ltb_spec; lia.
Qed.

Lemma key_ltb_others (x y : sub_item) :
  ¬ preferred x → ¬ preferred y → before x y →
  key_ltb (sort_key y) (sort_key x) = false.
Proof.
  destruct x as [[[ix sx] lx] nx], y as [[[iy sy] ly] ny]. compare_keys.
  apply not_true_iff_false; rewrite key_ltb_spec; lia.
Qed.

Lemma key_ltb_preferred_other (x y : sub_item) :
  ¬ preferred x → preferred y → key_ltb (sort_key y) (sort_key x) = true.
Proof.
  destruct x as [[[ix sx] lx] nx], y as [[[iy sy] ly] ny]. compare_keys.
Qed.

(** An entry that no head beats stays in front. *)
Lemma sort_insert_front (x : sub_item) (l : list sub_item) :
  (∀ y, head l = Some y → key_ltb (sort_key y) (sort_key x) = false) →
  sort_insert x l = x :: l.
Proof.
  destruct l as [|y l]; [done|]. intros H. simpl. by rewrite (H y eq_refl).
Qed.

(** An entry of another language passes every preferred one. *)
Lemma sort_insert_skip (x : sub_item) (front back : list sub_item) :
  ¬ preferred x → Forall preferred front →
  (∀ y, head back = Some y → key_ltb (sort_key y) (sort_key x) = false) →
  sort_insert x (front ++ back) = front ++ x :: back.
Proof.
  intros Hx Hfront Hback. induction Hfront as [|y front Hy _ IH]; simpl.
  - by apply sort_insert_front.
  - rewrite key_ltb_preferred_other by done. by rewrite IH.
Qed.

(** On a list that is in the order of the inputs, the sort brings the
    preferred entries to the front and moves nothing else. *)
Lemma list_sort_partition (l : list sub_item) :
  StronglySorted before l →
  list_sort l = filter preferred l ++ filter (λ item, ¬ preferred item) l.
Proof.
  induction 1 as [|x l _ IH Hx]; [done|]. simpl. rewrite IH.
  rewrite Forall_forall in Hx. destruct (decide (preferred x)) as [Hp|Hp].
  - rewrite (filter_cons_True preferred) by done.
    rewrite (filter_cons_False (λ item, ¬ preferred item)) by tauto.
    apply sort_insert_front. intros y Hy. apply key_ltb_preferred; [done|].
    apply Hx. apply head_Some_elem_of in Hy.
    apply elem_of_app in Hy as [Hy|Hy]; by apply list_elem_of_filter in Hy as [_ ?].
  - rewrite (filter_cons_False preferred) by done.
    rewrite (filter_cons_True (λ item, ¬ preferred item)) by done.
    apply sort_insert_skip; [done| |].
    + apply Forall_forall. intros y Hy. by apply list_elem_of_filter in Hy as [? _].
    + intros y Hy. apply head_Some_elem_of in Hy.
      apply list_elem_of_filter in Hy as [? ?]. apply key_ltb_others; auto.
Qed.

(** ** The candidates *)

(** The entries that the loop over the existing streams adds. *)
Lemma elem_of_existing_items (files : list (string * Path))
    (subs : list sub_info) (items : list sub_item) (item : sub_item) :
  existing_items files subs = Ok items →
  (item ∈ items ↔
   ∃ info l, info ∈ subs ∧ lower_method (language info) = Ok l ∧
             (l ∉ files.*1) ∧ item = (0, stream_index info, l, false)).
Proof.
  revert items. induction subs as [|info rest IH]; intros items H; simpl in H.
  - injection H as <-. split; [by intros ?%elem_of_nil|].
    by intros (? & ? & ?%elem_of_nil & _).
  - bind_inv H. bind_inv H. injection H as <-. specialize (IH _ Ha0).
    case_decide as Hkey; [|rewrite elem_of_cons]; rewrite IH; split.
    + intros (info' & l & ? & ?). exists info', l. by rewrite elem_of_cons; auto.
    + intros (info' & l & [->|?]%elem_of_cons & Hl & ? & ?); [congruence|].
      by exists info', l.
    + intros [->|(info' & l & ? & ?)]; [by exists info, a; rewrite elem_of_cons; auto|].
      exists info', l. by rewrite elem_of_cons; auto.
    + intros (info' & l & [->|?]%elem_of_cons & Hl & ? & ?).
      * left. congruence.
      * right. by exists info', l.
Qed.

(** They keep the order of the container. *)
Lemma existing_items_sublist (files : list (string * Path))
    (subs : list sub_info) (items : list sub_item) :
  existing_items files subs = Ok items →
  stream_idx <$> items `sublist_of` stream_index <$> subs.
Proof.
  revert items. induction subs as [|info rest IH]; intros items H; simpl in H.
  - by injection H as <-.
  - bind_inv H. bind_inv H. injection H as <-. specialize (IH _ Ha0).
    case_decide; simpl; by constructor.
Qed.

Lemma existing_items_sorted (files : list (string * Path))
    (subs : list sub_info) (items : list sub_item) :
  existing_items files subs = Ok items →
  StronglySorted lt (stream_index <$> subs) →
  StronglySorted before items.
Proof.
  revert items. induction subs as [|info rest IH]; intros items H Hs; simpl in H.
  - injection H as <-. constructor.
  - bind_inv H. bind_inv H. injection H as <-.
    rewrite fmap_cons in Hs. apply StronglySorted_cons in Hs as [Hlt Hs].
    specialize (IH _ Ha0 Hs). case_decide; [done|].
    constructor; [done|]. apply Forall_forall. intros item Hitem.
    apply (elem_of_existing_items _ _ _ _ Ha0) in Hitem
      as (info' & l & Hin & _ & _ & ->).
    right. split; [done|]. unfold stream_idx. simpl.
    rewrite Forall_forall in Hlt. apply Hlt. by apply list_elem_of_fmap_2.
Qed.

Lemma seq_sorted (i n : nat) : StronglySorted lt (seq i n).
Proof.
  revert i. induction n as [|n IH]; intros i; simpl; constructor; [done|].
  apply Forall_forall. intros j Hj%elem_of_seq. lia.
Qed.

(** The entries of the new files, by position. *)
Lemma new_items_lookup (inputs : list (string * Path)) (i : nat) :
  new_items inputs !! i = (λ entry, (i + 1, 0, entry.1, true)) <$> inputs !! i.
Proof. unfold new_items. by rewrite list_lookup_imap. Qed.

Lemma elem_of_new_items (inputs : list (string * Path)) (item : sub_item) :
  item ∈ new_items inputs ↔
  ∃ i entry, inputs !! i = Some entry ∧ item = (i + 1, 0, entry.1, true).
Proof.
  rewrite list_elem_of_lookup. split.
  - intros (i & Hi). rewrite new_items_lookup in Hi.
    destruct (inputs !! i) as [entry|] eqn:He; [|done].
    injection Hi as <-. by exists i, entry.
  - intros (i & entry & He & ->). exists i.
    by rewrite new_items_lookup, He.
Qed.

Lemma new_items_lang (inputs : list (string * Path)) :
  lang <$> new_items inputs = inputs.*1.
Proof.
  apply list_eq. intros i.
  rewrite !list_lookup_fmap, new_items_lookup.
  by destruct (inputs !! i).
Qed.

Lemma new_items_sorted (inputs : list (string * Path)) :
  StronglySorted before (new_items inputs).
Proof.
  unfold new_items. generalize 1 as k.
  induction inputs as [|entry rest IH]; intros k; [constructor|].
  rewrite imap_cons. constructor.
  - rewrite (imap_ext _ (λ i e, (i + S k, 0, e.1, true))); [apply IH|].
    intros i e _. simpl. do 3 f_equal. lia.
  - apply Forall_forall. intros item [i Hi]%list_elem_of_lookup_1.
    apply list_lookup_imap_Some in Hi as (e & _ & ->).
    left. unfold input_idx. simpl. lia.
Qed.

(** ** Filters *)

Lemma filter_none {A} (P : A → Prop) `{!∀ x, Decision (P x)} (l : list A) :
  (∀ x, x ∈ l → ¬ P x) → filter P l = [].
Proof.
  induction l as [|x l IH]; intros HP; [done|].
  rewrite filter_cons_False by (apply HP; left).
  apply IH. intros y Hy. apply HP. by right.
Qed.

Lemma filter_all {A} (P : A → Prop) `{!∀ x, Decision (P x)} (l : list A) :
  (∀ x, x ∈ l → P x) → filter P l = l.
Proof.
  induction l as [|x l IH]; intros HP; [done|].
  rewrite filter_cons_True by (apply HP; left).
  f_equal. apply IH. intros y Hy. apply HP. by right.
Qed.

(** A dict binds a key once. *)
Lemma dict_functional {V} (d : list (string * V)) (k : string) (v1 v2 : V) :
  NoDup d.*1 → (k, v1) ∈ d → (k, v2) ∈ d → v1 = v2.
Proof.
  induction d as [|[k' v'] d IH]; simpl; [by intros _ ?%elem_of_nil|].
  intros [Hk Hd]%NoDup_cons [[= -> ->]|H1]%elem_of_cons [[= ->]|H2]%elem_of_cons.
  - done.
  - destruct Hk. by apply (list_elem_of_fmap_2 fst) in H2.
  - destruct Hk. by apply (list_elem_of_fmap_2 fst) in H1.
  - by apply IH.
Qed.

Section Plan.

Variable exists_ : Path → bool.

Lemma candidates_sorted (p : probe) (existing_subs : list sub_info)
    (files : list (string * Path)) (cands : list sub_item) :
  get_embedded_subtitles p = Ok existing_subs →
  candidates exists_ existing_subs files = Ok cands →
  StronglySorted before cands.
Proof.
  intros Hp Hc. unfold candidates in Hc. bind_inv Hc. injection Hc as <-.
  apply StronglySorted_app. split_and!.
  - intros x y Hx Hy.
    apply (elem_of_existing_items _ _ _ _ Ha) in Hx as (? & ? & _ & _ & _ & ->).
    apply elem_of_new_items in Hy as (i & ? & _ & ->).
    left. unfold input_idx. simpl. lia.
  - eapply existing_items_sorted; [done|].
    rewrite (get_embedded_subtitles_index _ _ Hp). apply seq_sorted.
  - apply new_items_sorted.
Qed.

Lemma list_sort_nil (l : list sub_item) : list_sort l = [] → l = [].
Proof.
  destruct l as [|x l]; [done|]. simpl.
  destruct (list_sort l) as [|y l']; simpl; [done|]. by case_match.
Qed.

(** What a run of the planner that returns has gone through. *)
Lemma plan_subtitles_Ok (p : probe) (video_path : Path)
    (files : list (string * Path)) (pl : plan) :
  plan_subtitles exists_ p video_path files = Ok pl →
  ∃ existing_subs,
    get_embedded_subtitles p = Ok existing_subs ∧
    ((pl = NoOp ∧
      (files = [] ∨ candidates exists_ existing_subs files = Ok [])) ∨
     ∃ cands, candidates exists_ existing_subs files = Ok cands ∧
              cands ≠ [] ∧
              pl = Remux (new_sub_codec (lower (suffix video_path)))
                         (list_sort cands)).
Proof.
  unfold plan_subtitles. intros H. bind_inv H. bind_inv H.
  exists a. split; [done|].
  destruct (bool_decide (files = [])) eqn:Hfiles; simpl in H.
  - apply bool_decide_eq_true in Hfiles.
    repeat case_match; try (injection H as <-; left; by auto).
    bind_inv H. case_bool_decide as Hnil; injection H as <-.
    + left. by auto.
    + right. exists a1. split_and!; [done| |done]. by intros ->.
  - bind_inv H. case_bool_decide as Hnil; injection H as <-.
    + left. split; [done|]. right. by rewrite (list_sort_nil _ Hnil) in Ha1.
    + right. exists a1. split_and!; [done| |done]. by intros ->.
Qed.

Lemma plan_subtitles_Remux (p : probe) (video_path : Path)
    (files : list (string * Path)) (codec : string) (all_subs : list sub_item) :
  plan_subtitles exists_ p video_path files = Ok (Remux codec all_subs) →
  ∃ existing_subs cands,
    get_embedded_subtitles p = Ok existing_subs ∧
    candidates exists_ existing_subs files = Ok cands ∧
    cands ≠ [] ∧
    codec = new_sub_codec (lower (suffix video_path)) ∧
    all_subs = filter preferred cands ++ filter (λ item, ¬ preferred item) cands.
Proof.
  intros (existing_subs & Hp & [[[=] _]|(cands & Hc & ? & [= -> ->])])%plan_subtitles_Ok.
  exists existing_subs, cands. split_and!; try done.
  apply list_sort_partition. by eapply candidates_sorted.
Qed.

(** Every track of a plan is one of the candidates. *)
Lemma elem_of_slots (p : probe) (video_path : Path)
    (files : list (string * Path)) (pl : plan) (item : sub_item) :
  plan_subtitles exists_ p video_path files = Ok pl →
  item ∈ slots pl →
  ∃ existing_subs cands,
    get_embedded_subtitles p = Ok existing_subs ∧
    candidates exists_ existing_subs files = Ok cands ∧ item ∈ cands.
Proof.
  destruct pl as [|codec all_subs]; simpl; [by intros _ ?%elem_of_nil|].
  intros (existing_subs & cands & Hp & Hc & _ & _ & ->)%plan_subtitles_Remux Hitem.
  exists existing_subs, cands. split_and!; try done.
  apply elem_of_app in Hitem as [Hitem|Hitem];
    by apply list_elem_of_filter in Hitem as [_ ?].
Qed.

End Plan.

(** ** No-op detection *)

(** C3: with no new subtitle file, a video that has no subtitle stream,
    or whose first stream carries the preferred language once lowered,
    is planned as a no-op, and the function copies the video to the
    output path instead of running ffmpeg. *)
Theorem no_op_detection (exists_ : Path → bool) (p : probe)
    (video_path output_path : Path) (existing_subs : list sub_info) :
  get_embedded_subtitles p = Ok existing_subs →
  (existing_subs = [] ∨
   ∃ first rest, existing_subs = first :: rest ∧
                 lower_method (language first) = Ok "spa") →
  plan_subtitles exists_ p video_path [] = Ok NoOp ∧
  embed_subtitles_into_video exists_ p video_path output_path [] =
    Ok (Copy2 (str video_path) (str output_path)).
Proof.
  intros Hp Hfirst.
  assert (plan_subtitles exists_ p video_path [] = Ok NoOp) as Hplan.
  { unfold plan_subtitles. rewrite Hp. simpl.
    destruct Hfirst as [->|(first & rest & -> & Hl)]; simpl; [done|].
    by rewrite Hl. }
  split; [done|]. unfold embed_subtitles_into_video. by rewrite Hplan.
Qed.

Lemma no_op_detection_witness :
  plan_subtitles all_present (probe_of ["SPA"; "eng"]) movie [] = Ok NoOp ∧
  embed_subtitles_into_video all_present (probe_of ["SPA"; "eng"]) movie movie_out [] =
    Ok (Copy2 (str movie) (str movie_out)).
Proof.
  apply (no_op_detection all_present (probe_of ["SPA"; "eng"]) movie movie_out
           [SubInfo (JInt 2) 0 (JStr "SPA"); SubInfo (JInt 2) 1 (JStr "eng")]).
  - reflexivity.
  - right. eexists _, _. split; reflexivity.
Defined.

(** C7: when no candidate is left, because every existing stream is
    replaced and no new file exists, the plan is a no-op and the function
    copies the video; nothing is raised and ffmpeg is not run. *)
Theorem degenerate_no_op (exists_ : Path → bool) (p : probe)
    (video_path output_path : Path) (existing_subs : list sub_info)
    (files : list (string * Path)) :
  get_embedded_subtitles p = Ok existing_subs →
  candidates exists_ existing_subs files = Ok [] →
  plan_subtitles exists_ p video_path files = Ok NoOp ∧
  embed_subtitles_into_video exists_ p video_path output_path files =
    Ok (Copy2 (str video_path) (str output_path)).
Proof.
  intros Hp Hc.
  assert (plan_subtitles exists_ p video_path files = Ok NoOp) as Hplan.
  { unfold plan_subtitles. rewrite Hp. simpl.
    assert (∃ b, spanish_is_first existing_subs = Ok b) as [b ->].
    { destruct existing_subs as [|first rest]; [by exists false|].
      unfold candidates in Hc. bind_inv Hc. simpl in Ha. bind_inv Ha.
      simpl. rewrite Ha0. by eexists. }
    simpl. repeat case_match; try done. by rewrite Hc. }
  split; [done|]. unfold embed_subtitles_into_video. by rewrite Hplan.
Qed.

Lemma degenerate_no_op_witness :
  plan_subtitles spa_missing (probe_of ["spa"]) movie [("spa", spa_srt)] = Ok NoOp ∧
  embed_subtitles_into_video spa_missing (probe_of ["spa"]) movie movie_out
    [("spa", spa_srt)] = Ok (Copy2 (str movie) (str movie_out)).
Proof.
  apply (degenerate_no_op spa_missing (probe_of ["spa"]) movie movie_out
           [SubInfo (JInt 2) 0 (JStr "spa")] [("spa", spa_srt)]);
    reflexivity.
Defined.

(** ** Order of the tracks *)

(** C5: the tracks of a remux are the preferred candidates followed by
    the others, and each group keeps the order of the candidates: the
    existing streams that are not replaced, in the order of the
    container, then the new files that exist, in the order of
    [subtitle_files]. *)
Theorem order_preservation (exists_ : Path → bool) (p : probe)
    (video_path : Path) (files : list (string * Path))
    (codec : string) (all_subs : list sub_item) :
  plan_subtitles exists_ p video_path files = Ok (Remux codec all_subs) →
  ∃ existing_subs existing new,
    get_embedded_subtitles p = Ok existing_subs ∧
    existing_items files existing_subs = Ok existing ∧
    new = new_items (sub_inputs exists_ files) ∧
    all_subs =
      (filter preferred existing ++ filter preferred new) ++
      (filter (λ item, ¬ preferred item) existing ++
       filter (λ item, ¬ preferred item) new) ∧
    stream_index <$> existing_subs = seq 0 (length existing_subs) ∧
    stream_idx <$> existing `sublist_of` stream_index <$> existing_subs ∧
    lang <$> new `sublist_of` files.*1.
Proof.
  intros (existing_subs & cands & Hp & Hc & _ & _ & ->)%plan_subtitles_Remux.
  unfold candidates in Hc. bind_inv Hc. injection Hc as <-.
  exists existing_subs, a, (new_items (sub_inputs exists_ files)).
  split_and!; try done.
  - by rewrite !filter_app.
  - by eapply get_embedded_subtitles_index.
  - by eapply existing_items_sublist.
  - rewrite new_items_lang. apply fmap_sublist, sublist_filter.
Qed.

Lemma order_preservation_witness :
  ∃ existing_subs existing new,
    get_embedded_subtitles (probe_of ["fra"; "spa"; "und"]) = Ok existing_subs ∧
    existing_items [("eng", eng_srt); ("spa", spa_srt)] existing_subs = Ok existing ∧
    new = new_items (sub_inputs all_present [("eng", eng_srt); ("spa", spa_srt)]) ∧
    [(2, 0, "spa", true); (0, 0, "fra", false); (0, 2, "und", false);
     (1, 0, "eng", true)] =
      (filter preferred existing ++ filter preferred new) ++
      (filter (λ item, ¬ preferred item) existing ++
       filter (λ item, ¬ preferred item) new) ∧
    stream_index <$> existing_subs = seq 0 (length existing_subs) ∧
    stream_idx <$> existing `sublist_of` stream_index <$> existing_subs ∧
    lang <$> new `sublist_of` [("eng", eng_srt); ("spa", spa_srt)].*1.
Proof.
  apply (order_preservation all_present (probe_of ["fra"; "spa"; "und"]) movie
           [("eng", eng_srt); ("spa", spa_srt)] "srt").
  reflexivity.
Defined.

(** ** The preferred language comes first *)

Section PreferredFirst.

Variable exists_ : Path → bool.

(** A candidate carries the preferred language exactly when an existing
    stream that is kept does, or a new file that exists does. *)
Lemma preferred_candidate (existing_subs : list sub_info)
    (files : list (string * Path)) (cands : list sub_item) :
  candidates exists_ existing_subs files = Ok cands →
  (∃ item, item ∈ cands ∧ preferred item) ↔
  preferred_survives files existing_subs ∨ preferred_supplied exists_ files.
Proof.
  intros Hc. unfold candidates in Hc. bind_inv Hc. injection Hc as <-. split.
  - intros (item & [Hitem|Hitem]%elem_of_app & Hpref).
    + left. apply (elem_of_existing_items _ _ _ _ Ha) in Hitem
        as (info & l & Hin & Hl & Hkey & ->).
      unfold preferred, lang in Hpref. simpl in Hpref. subst l. by exists info.
    + right. apply elem_of_new_items in Hitem as (i & [k path] & Hi & ->).
      unfold preferred, lang in Hpref. simpl in Hpref. subst k.
      apply list_elem_of_lookup_2, list_elem_of_filter in Hi as [? ?].
      by exists path.
  - intros [(info & Hin & Hl & Hkey)|(path & Hin & Hex)].
    + exists (0, stream_index info, "spa", false). split; [|done].
      apply elem_of_app. left. apply (elem_of_existing_items _ _ _ _ Ha).
      by exists info, "spa".
    + assert (("spa", path) ∈ sub_inputs exists_ files) as [i Hi]%list_elem_of_lookup_1
        by by apply list_elem_of_filter.
      exists (i + 1, 0, "spa", true). split; [|done].
      apply elem_of_app. right. apply elem_of_new_items. by exists i, ("spa", path).
Qed.

End PreferredFirst.

(** C1, as amended: the first track of a remux carries the preferred
    language whenever an existing stream that is kept carries it or a
    new file that exists is supplied for it; otherwise the first track
    is the first candidate, and it carries another language. *)
Theorem preferred_first (exists_ : Path → bool) (p : probe)
    (video_path : Path) (files : list (string * Path))
    (codec : string) (all_subs : list sub_item) :
  plan_subtitles exists_ p video_path files = Ok (Remux codec all_subs) →
  ∃ existing_subs cands first,
    get_embedded_subtitles p = Ok existing_subs ∧
    candidates exists_ existing_subs files = Ok cands ∧
    head all_subs = Some first ∧
    (preferred_survives files existing_subs ∨ preferred_supplied exists_ files →
     lang first = "spa") ∧
    (¬ (preferred_survives files existing_subs ∨ preferred_supplied exists_ files) →
     head cands = Some first ∧ lang first ≠ "spa").
Proof.
  intros (existing_subs & cands & Hp & Hc & Hne & _ & ->)%plan_subtitles_Remux.
  pose proof (preferred_candidate exists_ _ _ _ Hc) as Hpref.
  destruct (filter preferred cands) as [|first rest] eqn:Hfilter.
  - destruct cands as [|first rest]; [done|].
    exists existing_subs, (first :: rest), first.
    assert (∀ item, item ∈ first :: rest → ¬ preferred item) as Hnone.
    { intros item Hitem Hitem'.
      by eapply (filter_nil_not_elem_of preferred). }
    rewrite (filter_all (λ item, ¬ preferred item)) by done.
    split_and!; try done.
    + intros (item & Hitem & Hitem')%Hpref. by destruct (Hnone item).
    + intros _. split; [done|]. apply Hnone. by left.
  - exists existing_subs, cands, first.
    assert (first ∈ filter preferred cands) as [Hfirst _]%list_elem_of_filter
      by (rewrite Hfilter; by left).
    split_and!; try done. intros Habsent. destruct Habsent.
    apply Hpref. exists first. split; [|done].
    assert (first ∈ filter preferred cands) as [_ ?]%list_elem_of_filter
      by (rewrite Hfilter; by left).
    done.
Qed.

Lemma preferred_first_witness :
  ∃ existing_subs cands first,
    get_embedded_subtitles (probe_of ["eng"; "Spa"]) = Ok existing_subs ∧
    candidates all_present existing_subs [("fra", eng_srt)] = Ok cands ∧
    head [(0, 1, "spa", false); (0, 0, "eng", false); (1, 0, "fra", true)]
      = Some first ∧
    (preferred_survives [("fra", eng_srt)] existing_subs ∨
     preferred_supplied all_present [("fra", eng_srt)] →
     lang first = "spa") ∧
    (¬ (preferred_survives [("fra", eng_srt)] existing_subs ∨
        preferred_supplied all_present [("fra", eng_srt)]) →
     head cands = Some first ∧ lang first ≠ "spa").
Proof.
  apply (preferred_first all_present (probe_of ["eng"; "Spa"]) movie
           [("fra", eng_srt)] "srt").
  reflexivity.
Defined.

(** C1, as stated, fails: a new source for the preferred language whose
    file is missing is declared, the plan is not empty, and its first
    track carries another language. *)
Lemma preferred_first_declared_counterexample :
  ¬ ∀ (exists_ : Path → bool) (p : probe) (video_path : Path)
      (files : list (string * Path)) (existing_subs : list sub_info)
      (codec : string) (all_subs : list sub_item),
      get_embedded_subtitles p = Ok existing_subs →
      plan_subtitles exists_ p video_path files = Ok (Remux codec all_subs) →
      preferred_survives files existing_subs ∨ "spa" ∈ files.*1 →
      lang <$> head all_subs = Some "spa".
Proof.
  intros H.
  specialize (H spa_missing (probe_of ["eng"]) movie [("spa", spa_srt)]
                [SubInfo (JInt 2) 0 (JStr "eng")]
                "srt" [(0, 0, "eng", false)] eq_refl eq_refl).
  assert (lang <$> head [(0, 0, "eng", false)] = Some "spa") as Hhead.
  { apply H. right. simpl. by left. }
  discriminate Hhead.
Qed.

(** ** Supersession *)

(** The new entries that carry a language are as many as the inputs
    that are bound to it. *)
Lemma new_items_count (inputs : list (string * Path)) (l : string) :
  length (filter (λ item, is_new item = true ∧ lang item = l) (new_items inputs)) =
  length (filter (λ entry, entry.1 = l) inputs).
Proof.
  unfold new_items. generalize 1 as k.
  induction inputs as [|[k' path] rest IH]; intros k; [done|].
  rewrite imap_cons.
  rewrite (imap_ext _ (λ i e, (i + S k, 0, e.1, true)))
    by (intros i e _; simpl; do 3 f_equal; lia).
  destruct (decide (k' = l)) as [->|Hk].
  - rewrite !filter_cons_True by done. simpl. by rewrite IH.
  - rewrite !filter_cons_False; [apply IH|by simpl|].
    unfold lang. simpl. by intros [_ ?].
Qed.

Lemma dict_count {V} (d : list (string * V)) (k : string) (v : V) :
  NoDup d.*1 → (k, v) ∈ d → length (filter (λ entry, entry.1 = k) d) = 1.
Proof.
  induction d as [|[k' v'] d IH]; simpl; [by intros _ ?%elem_of_nil|].
  intros [Hk Hd]%NoDup_cons [[= <- <-]|Hin]%elem_of_cons.
  - rewrite filter_cons_True by done. simpl. f_equal.
    rewrite filter_none; [done|]. intros [k' v'] Hin ?. simpl in *. subst k'.
    destruct Hk. by apply (list_elem_of_fmap_2 fst) in Hin.
  - rewrite filter_cons_False; [by apply IH|]. simpl. intros ->.
    destruct Hk. by apply (list_elem_of_fmap_2 fst) in Hin.
Qed.

Lemma sub_inputs_NoDup (exists_ : Path → bool) (files : list (string * Path)) :
  NoDup files.*1 → NoDup (sub_inputs exists_ files).*1.
Proof.
  intros Hd. eapply sublist_NoDup; [done|]. apply fmap_sublist, sublist_filter.
Qed.

(** C2, as amended: no track of the plan comes from an existing stream
    whose language is a key of [subtitle_files]; and when the file of
    that key exists, exactly one track is new and carries the key. *)
Theorem supersession (exists_ : Path → bool) (p : probe) (video_path : Path)
    (files : list (string * Path)) (pl : plan) (l : string) (path : Path) :
  NoDup files.*1 →
  (l, path) ∈ files →
  plan_subtitles exists_ p video_path files = Ok pl →
  (∀ item, item ∈ slots pl → lang item = l →
           is_new item = true ∧ input_idx item ≠ 0) ∧
  (exists_ path →
   length (filter (λ item, is_new item = true ∧ lang item = l) (slots pl)) = 1).
Proof.
  intros Hd Hin Hplan. split.
  - intros item Hitem Hl.
    destruct (elem_of_slots _ _ _ _ _ _ Hplan Hitem)
      as (existing_subs & cands & _ & Hc & Hcand).
    unfold candidates in Hc. bind_inv Hc. injection Hc as <-.
    apply elem_of_app in Hcand as [Hcand|Hcand].
    + apply (elem_of_existing_items _ _ _ _ Ha) in Hcand
        as (info & l' & _ & _ & Hkey & ->).
      unfold lang in Hl. simpl in Hl. subst l'.
      destruct Hkey. by apply (list_elem_of_fmap_2 fst) in Hin.
    + apply elem_of_new_items in Hcand as (i & entry & _ & ->).
      unfold input_idx. simpl. split; [done|lia].
  - intros Hex.
    assert ((l, path) ∈ sub_inputs exists_ files) as Hinput
      by by apply list_elem_of_filter.
    destruct (plan_subtitles_Ok _ _ _ _ _ Hplan)
      as (existing_subs & Hp & [[-> [->|Hc]]|(cands & Hc & Hne & ->)]).
    { by apply elem_of_nil in Hin. }
    { unfold candidates in Hc. bind_inv Hc. injection Hc as Hc.
      apply app_eq_nil in Hc as [_ Hnew].
      apply list_elem_of_lookup_1 in Hinput as [i Hi].
      pose proof (new_items_lookup (sub_inputs exists_ files) i) as Hlook.
      by rewrite Hnew, Hi in Hlook. }
    simpl. rewrite list_sort_partition by by eapply candidates_sorted.
    rewrite filter_app_complement.
    unfold candidates in Hc. bind_inv Hc. injection Hc as <-.
    rewrite filter_app, length_app.
    rewrite (filter_none _ a).
    + simpl. rewrite new_items_count.
      eapply dict_count; [|done]. by apply sub_inputs_NoDup.
    + intros item Hitem [Hnew _].
      by apply (elem_of_existing_items _ _ _ _ Ha) in Hitem
        as (? & ? & _ & _ & _ & ->).
Qed.

Lemma supersession_witness :
  (∀ item,
     item ∈ slots (Remux "srt" [(1, 0, "spa", true); (0, 1, "eng", false)]) →
     lang item = "spa" → is_new item = true ∧ input_idx item ≠ 0) ∧
  (all_present spa_srt →
   length (filter (λ item, is_new item = true ∧ lang item = "spa")
             (slots (Remux "srt" [(1, 0, "spa", true); (0, 1, "eng", false)]))) = 1).
Proof.
  apply (supersession all_present (probe_of ["spa"; "eng"]) movie
           [("spa", spa_srt)] _ "spa" spa_srt).
  - simpl. apply NoDup_singleton.
  - by left.
  - reflexivity.
Defined.

(** C2, as stated, fails: the key of a new source whose file is missing
    has no new track in the plan. *)
Lemma supersession_declared_counterexample :
  ¬ ∀ (exists_ : Path → bool) (p : probe) (video_path : Path)
      (files : list (string * Path)) (pl : plan) (l : string),
      NoDup files.*1 →
      l ∈ files.*1 →
      plan_subtitles exists_ p video_path files = Ok pl →
      (∀ item, item ∈ slots pl → lang item = l → is_new item = true) ∧
      length (filter (λ item, is_new item = true ∧ lang item = l) (slots pl)) = 1.
Proof.
  intros H.
  destruct (H spa_missing (probe_of ["eng"]) movie [("spa", spa_srt)]
              (Remux "srt" [(0, 0, "eng", false)]) "spa") as [_ Hone].
  - simpl. apply NoDup_singleton.
  - simpl. by left.
  - reflexivity.
  - discriminate Hone.
Qed.

(** ** A new source whose file is missing *)

(** C10: a new source whose file does not exist is not among the inputs
    of the remux, and the plan has no track of its language, neither a
    new one nor an existing one. *)
Theorem missing_source_no_slot (exists_ : Path → bool) (p : probe)
    (video_path : Path) (files : list (string * Path)) (pl : plan)
    (l : string) (path : Path) :
  NoDup files.*1 →
  (l, path) ∈ files →
  exists_ path = false →
  plan_subtitles exists_ p video_path files = Ok pl →
  ((l, path) ∉ sub_inputs exists_ files) ∧
  (∀ item, item ∈ slots pl → lang item ≠ l).
Proof.
  intros Hd Hin Hex Hplan. split.
  - intros [Hex' _]%list_elem_of_filter. simpl in Hex'. by rewrite Hex in Hex'.
  - intros item Hitem Hl.
    destruct (elem_of_slots _ _ _ _ _ _ Hplan Hitem)
      as (existing_subs & cands & _ & Hc & Hcand).
    unfold candidates in Hc. bind_inv Hc. injection Hc as <-.
    apply elem_of_app in Hcand as [Hcand|Hcand].
    + apply (elem_of_existing_items _ _ _ _ Ha) in Hcand
        as (info & l' & _ & _ & Hkey & ->).
      unfold lang in Hl. simpl in Hl. subst l'.
      destruct Hkey. by apply (list_elem_of_fmap_2 fst) in Hin.
    + apply elem_of_new_items in Hcand as (i & [k path'] & Hi & ->).
      unfold lang in Hl. simpl in Hl. subst k.
      apply list_elem_of_lookup_2, list_elem_of_filter in Hi as [Hex' Hin'].
      rewrite (dict_functional _ _ _ _ Hd Hin' Hin) in Hex'. simpl in Hex'.
      by rewrite Hex in Hex'.
Qed.

Lemma missing_source_no_slot_witness :
  (("spa", spa_srt) ∉ sub_inputs spa_missing [("spa", spa_srt); ("eng", eng_srt)]) ∧
  (∀ item,
     item ∈ slots (Remux "srt" [(0, 1, "fra", false); (1, 0, "eng", true)]) →
     lang item ≠ "spa").
Proof.
  apply (missing_source_no_slot spa_missing (probe_of ["spa"; "fra"]) movie
           [("spa", spa_srt); ("eng", eng_srt)] _ "spa" spa_srt).
  - apply (bool_decide_unpack _). vm_compute. reflexivity.
  - by left.
  - reflexivity.
  - reflexivity.
Defined.

(** ** Codecs *)

(** The codec directive of the [i]-th track. *)
Lemma codec_args_lookup (codec : string) (all_subs : list sub_item)
    (i : nat) (item : sub_item) :
  all_subs !! i = Some item →
  codec_args codec all_subs !! (i * 4) = Some ("-c:s:" +:+ pretty i) ∧
  codec_args codec all_subs !! (i * 4 + 1) =
    Some (if is_new item then codec else "copy").
Proof.
  intros Hi. unfold codec_args.
  set (f := λ (out_idx : nat) (it : sub_item),
              let '(_, _, l, new) := it in
              [ "-c:s:" +:+ pretty out_idx; if new : bool then codec else "copy";
                "-metadata:s:s:" +:+ pretty out_idx; "language=" +:+ l ]).
  assert (Forall (λ l, length l = 4) (imap f all_subs)) as Hlen.
  { apply Forall_forall. intros l [j Hj]%list_elem_of_lookup_1.
    apply list_lookup_imap_Some in Hj as ([[[? ?] ?] ?] & _ & ->). done. }
  assert (imap f all_subs !! i = Some (f i item)) as Hf
    by by rewrite list_lookup_imap, Hi.
  split.
  - replace (i * 4) with (i * 4 + 0) by lia.
    apply (join_lookup_Some_same_length' 4); [done|lia|].
    exists (f i item). split; [done|]. by destruct item as [[[? ?] ?] ?].
  - apply (join_lookup_Some_same_length' 4); [done|lia|].
    exists (f i item). split; [done|]. by destruct item as [[[? ?] ?] ?].
Qed.

(** C4: in the command of a remux the codec directive of a track that
    comes from a new file names mov_text when the lowered suffix of the
    video is .mp4 and srt otherwise, and the codec directive of a track
    that comes from the video itself is copy. *)
Theorem codec_mapping (exists_ : Path → bool) (p : probe)
    (video_path output_path : Path) (files : list (string * Path))
    (cmd : list string) :
  embed_subtitles_into_video exists_ p video_path output_path files = Ok (Run cmd) →
  ∃ codec all_subs front,
    plan_subtitles exists_ p video_path files = Ok (Remux codec all_subs) ∧
    codec = (if decide (lower (suffix video_path) = ".mp4")
             then "mov_text" else "srt") ∧
    cmd = front ++ codec_args codec all_subs ++ [str output_path] ∧
    ∀ i item, all_subs !! i = Some item →
      codec_args codec all_subs !! (i * 4) = Some ("-c:s:" +:+ pretty i) ∧
      (input_idx item = 0 →
       is_new item = false ∧
       codec_args codec all_subs !! (i * 4 + 1) = Some "copy") ∧
      (input_idx item ≠ 0 →
       is_new item = true ∧
       codec_args codec all_subs !! (i * 4 + 1) = Some codec).
Proof.
  unfold embed_subtitles_into_video. intros H. bind_inv H.
  destruct a as [|codec all_subs]; [done|]. injection H as <-.
  exists codec, all_subs. eexists. split_and!; [done| | |].
  - apply plan_subtitles_Remux in Ha as (_ & _ & _ & _ & _ & -> & _).
    unfold new_sub_codec. by repeat case_decide.
  - unfold ffmpeg_cmd. by rewrite !(assoc_L (++)).
  - intros i item Hi.
    destruct (codec_args_lookup codec _ _ _ Hi) as [Hopt Hcodec].
    assert (item ∈ slots (Remux codec all_subs)) as Hitem
      by by eapply list_elem_of_lookup_2.
    destruct (elem_of_slots _ _ _ _ _ _ Ha Hitem)
      as (existing_subs & cands & _ & Hc & Hcand).
    unfold candidates in Hc. bind_inv Hc. injection Hc as <-.
    apply elem_of_app in Hcand as [Hcand|Hcand].
    + apply (elem_of_existing_items _ _ _ _ Ha0) in Hcand
        as (info & l & _ & _ & _ & ->).
      split_and!; [done|by intros _|done].
    + apply elem_of_new_items in Hcand as (j & entry & _ & ->).
      split_and!; [done| |by intros _].
      unfold input_idx. simpl. lia.
Qed.

Lemma codec_mapping_witness :
  ∃ codec all_subs front,
    plan_subtitles all_present (probe_of ["eng"]) clip [("spa", spa_srt)] =
      Ok (Remux codec all_subs) ∧
    codec = (if decide (lower (suffix clip) = ".mp4") then "mov_text" else "srt") ∧
    ffmpeg_cmd all_present clip movie_out [("spa", spa_srt)] "mov_text"
      [(1, 0, "spa", true); (0, 0, "eng", false)] =
      front ++ codec_args codec all_subs ++ [str movie_out] ∧
    ∀ i item, all_subs !! i = Some item →
      codec_args codec all_subs !! (i * 4) = Some ("-c:s:" +:+ pretty i) ∧
      (input_idx item = 0 →
       is_new item = false ∧
       codec_args codec all_subs !! (i * 4 + 1) = Some "copy") ∧
      (input_idx item ≠ 0 →
       is_new item = true ∧
       codec_args codec all_subs !! (i * 4 + 1) = Some codec).
Proof.
  apply (codec_mapping all_present (probe_of ["eng"]) clip movie_out
           [("spa", spa_srt)]).
  reflexivity.
Defined.

(** ** Paths of the source and of the output *)

Lemma string_length_app (s1 s2 : string) :
  String.length (s1 +:+ s2) = String.length s1 + String.length s2.
Proof. induction s1 as [|c s1 IH]; simpl; [done|]. by rewrite IH. Qed.

Lemma string_app_nil_r (s : string) : s +:+ "" = s.
Proof.
  induction s as [|c s IH]; [done|].
  change (String c (s +:+ "") = String c s). by rewrite IH.
Qed.

Lemma string_app_assoc (s1 s2 s3 : string) :
  s1 +:+ s2 +:+ s3 = (s1 +:+ s2) +:+ s3.
Proof.
  induction s1 as [|c s1 IH]; [done|].
  change (String c (s1 +:+ s2 +:+ s3) = String c ((s1 +:+ s2) +:+ s3)).
  by rewrite IH.
Qed.

Lemma concat_cons (s : string) (l : list string) :
  String.concat "" (s :: l) = s +:+ String.concat "" l.
Proof. destruct l; simpl; [by rewrite string_app_nil_r|done]. Qed.

Lemma concat_app (l1 l2 : list string) :
  String.concat "" (l1 ++ l2) = String.concat "" l1 +:+ String.concat "" l2.
Proof.
  induction l1 as [|s l1 IH]; [done|].
  rewrite <-app_comm_cons, !concat_cons, IH.
  by rewrite string_app_assoc.
Qed.

(** The text of a path that ends in the component [c]. *)
Lemma str_truediv (p : Path) (c : string) :
  str (truediv p c) = String.concat "" ((λ c, "/" +:+ c) <$> p) +:+ "/" +:+ c.
Proof.
  unfold str, truediv. destruct (p ++ [c]) eqn:Hp.
  { by apply app_nil in Hp as [_ [=]]. }
  rewrite <-Hp, fmap_app, concat_app. simpl. done.
Qed.

Lemma name_truediv (p : Path) (c : string) : name (truediv p c) = c.
Proof. unfold name, truediv. by rewrite last_snoc. Qed.

(** [main] reads the video in Originals/ and writes one directory up. *)
Lemma source_output_distinct (target_path video_path : Path) :
  let source := original_in_originals target_path video_path in
  str source ≠ str (output_path_of target_path source).
Proof.
  unfold original_in_originals, output_path_of. simpl.
  rewrite name_truediv, !str_truediv. generalize (name video_path) as n.
  intros n Heq. unfold truediv in Heq.
  rewrite fmap_app, concat_app, <-string_app_assoc in Heq.
  apply String.app_inj in Heq. injection Heq as Heq.
  apply (f_equal String.length) in Heq. simpl in Heq.
  rewrite string_length_app in Heq. simpl in Heq. lia.
Qed.

(** C8: for the paths that [main] and [process_video] pass, the function
    either copies the source to the output path or runs ffmpeg with the
    source as input 0, the video and audio streams of input 0 mapped,
    both with the codec copy, and the output path as the last argument;
    and the output path is not the path of the source. *)
Theorem streams_copied_source_kept (exists_ : Path → bool) (p : probe)
    (target_path video_path : Path) (files : list (string * Path))
    (eff : effect) :
  let source := original_in_originals target_path video_path in
  let output := output_path_of target_path source in
  embed_subtitles_into_video exists_ p source output files = Ok eff →
  str source ≠ str output ∧
  match eff with
  | Copy2 src dst => src = str source ∧ dst = str output
  | Run cmd =>
      ∃ codec all_subs,
        cmd = ["ffmpeg"; "-y"; "-i"; str source]
              ++ (sub_inputs exists_ files ≫= λ entry, ["-i"; str entry.2])
              ++ ["-map"; "0:v"; "-map"; "0:a?"]
              ++ map_args all_subs
              ++ ["-c:v"; "copy"; "-c:a"; "copy"]
              ++ codec_args codec all_subs
              ++ [str output]
  end.
Proof.
  intros source output H. split; [apply source_output_distinct|].
  unfold embed_subtitles_into_video in H. bind_inv H.
  destruct a as [|codec all_subs]; injection H as <-; [done|].
  by exists codec, all_subs.
Qed.

Lemma streams_copied_source_kept_witness :
  str (original_in_originals ["lib"] ["lib"; "movie.mkv"]) ≠
    str (output_path_of ["lib"] (original_in_originals ["lib"] ["lib"; "movie.mkv"])) ∧
  ∃ codec all_subs,
    ["ffmpeg"; "-y"; "-i"; "/lib/Originals/movie.mkv";
     "-i"; "/lib/Originals/movie.spa.srt";
     "-map"; "0:v"; "-map"; "0:a?"; "-map"; "1:0"; "-map"; "0:s:0";
     "-c:v"; "copy"; "-c:a"; "copy";
     "-c:s:0"; "srt"; "-metadata:s:s:0"; "language=spa";
     "-c:s:1"; "copy"; "-metadata:s:s:1"; "language=eng";
     "/lib/movie.mkv"] =
    ["ffmpeg"; "-y"; "-i"; str (original_in_originals ["lib"] ["lib"; "movie.mkv"])]
    ++ (sub_inputs all_present [("spa", spa_srt)] ≫= λ entry, ["-i"; str entry.2])
    ++ ["-map"; "0:v"; "-map"; "0:a?"]
    ++ map_args all_subs
    ++ ["-c:v"; "copy"; "-c:a"; "copy"]
    ++ codec_args codec all_subs
    ++ [str (output_path_of ["lib"] (original_in_originals ["lib"] ["lib"; "movie.mkv"]))].
Proof.
  apply (streams_copied_source_kept all_present (probe_of ["eng"])
           ["lib"] ["lib"; "movie.mkv"] [("spa", spa_srt)] (Run _)).
  reflexivity.
Defined.

(** ** The plan is a function of its inputs *)

(** The loop over the existing streams reads the keys of
    [subtitle_files], not the paths. *)
Lemma existing_items_keys (files1 files2 : list (string * Path))
    (existing_subs : list sub_info) :
  files1.*1 = files2.*1 →
  existing_items files1 existing_subs = existing_items files2 existing_subs.
Proof.
  intros Hkeys. induction existing_subs as [|info rest IH]; simpl; [done|].
  destruct (lower_method (language info)) as [l|e]; simpl; [|done].
  rewrite IH. destruct (existing_items files2 rest) as [items|e]; simpl; [|done].
  by rewrite Hkeys.
Qed.

(** The new entries read the keys of the inputs, not the paths. *)
Lemma new_items_keys (inputs1 inputs2 : list (string * Path)) :
  inputs1.*1 = inputs2.*1 → new_items inputs1 = new_items inputs2.
Proof.
  intros Hkeys. apply list_eq. intros i. rewrite !new_items_lookup.
  apply (f_equal (λ ks, ks !! i)) in Hkeys. rewrite !list_lookup_fmap in Hkeys.
  destruct (inputs1 !! i) as [[k1 ?]|], (inputs2 !! i) as [[k2 ?]|];
    simpl in *; congruence.
Qed.

(** Two dicts with the same keys, in the same order, whose files exist
    for the same keys, give inputs with the same keys. *)
Lemma sub_inputs_keys (exists_a exists_b : Path → bool)
    (files1 files2 : list (string * Path)) :
  (λ entry, (entry.1, exists_a entry.2)) <$> files1 =
    (λ entry, (entry.1, exists_b entry.2)) <$> files2 →
  (sub_inputs exists_a files1).*1 = (sub_inputs exists_b files2).*1.
Proof.
  revert files2. induction files1 as [|[k1 p1] files1 IH];
    intros [|[k2 p2] files2] Heq; try done.
  injection Heq as -> Hex Heq. unfold sub_inputs in *.
  rewrite !filter_cons. simpl. rewrite Hex.
  specialize (IH _ Heq). destruct (exists_b p2); simpl; [by f_equal|done].
Qed.

(** C9, as amended: the plan, that is the decision to copy, the codec
    of the new tracks and the list of the tracks with their inputs,
    streams, languages and origins, is the same in two runs that see
    the same inventory, the same languages of new sources in the same
    order with the same files present, and a video that is an MP4 in
    both or in neither; the paths themselves do not matter.  The files
    that exist are part of the condition: the function asks the file
    system for each new source. *)
Theorem plan_deterministic (exists_a exists_b : Path → bool) (p : probe)
    (video1 video2 : Path) (files1 files2 : list (string * Path)) :
  (λ entry, (entry.1, exists_a entry.2)) <$> files1 =
    (λ entry, (entry.1, exists_b entry.2)) <$> files2 →
  (lower (suffix video1) = ".mp4" ↔ lower (suffix video2) = ".mp4") →
  plan_subtitles exists_a p video1 files1 = plan_subtitles exists_b p video2 files2.
Proof.
  intros Hfiles Hkind.
  assert (files1.*1 = files2.*1) as Hkeys.
  { apply (f_equal (fmap fst)) in Hfiles.
    by rewrite <-!list_fmap_compose in Hfiles. }
  assert (bool_decide (files1 = []) = bool_decide (files2 = [])) as Hempty.
  { apply bool_decide_ext. destruct files1, files2; done. }
  assert (new_sub_codec (lower (suffix video1)) =
          new_sub_codec (lower (suffix video2))) as Hcodec.
  { unfold new_sub_codec. repeat case_decide; tauto. }
  unfold plan_subtitles, candidates.
  destruct (get_embedded_subtitles p) as [existing_subs|e]; simpl; [|done].
  destruct (spanish_is_first existing_subs) as [first|e]; simpl; [|done].
  rewrite Hempty, Hcodec, (existing_items_keys _ _ _ Hkeys).
  by rewrite (new_items_keys _ _ (sub_inputs_keys _ _ _ _ Hfiles)).
Qed.

Lemma plan_deterministic_witness :
  plan_subtitles all_present (probe_of ["eng"]) movie [("spa", spa_srt)] =
  plan_subtitles spa_missing (probe_of ["eng"]) ["other"; "film.avi"]
    [("spa", eng_srt)].
Proof.
  apply (plan_deterministic all_present spa_missing (probe_of ["eng"])
           movie ["other"; "film.avi"] [("spa", spa_srt)] [("spa", eng_srt)]).
  - reflexivity.
  - vm_compute. split; intros [=].
Defined.

(** C9, as stated, fails: the inventory, the new sources, the preferred
    language and the video are the same in two runs, the file of a new
    source exists in one run and not in the other, and the plans
    differ. *)
Lemma plan_deterministic_counterexample :
  ¬ ∀ (exists_a exists_b : Path → bool) (p : probe) (video_path : Path)
      (files : list (string * Path)),
      plan_subtitles exists_a p video_path files =
      plan_subtitles exists_b p video_path files.
Proof.
  intros H.
  specialize (H all_present spa_missing (probe_of ["eng"]) movie
                [("spa", spa_srt)]).
  vm_compute in H. discriminate H.
Qed.

(** ** Failures of the probe *)


(** ** The scenarios of the specification *)

Example scenario_A :
  plan_subtitles all_present (probe_of ["eng"]) movie [("spa", spa_srt)] =
  Ok (Remux "srt" [(1, 0, "spa", true); (0, 0, "eng", false)]).
Proof. reflexivity. Qed.

Example scenario_B :
  plan_subtitles all_present (probe_of ["spa"]) movie [] = Ok NoOp.
Proof. reflexivity. Qed.

Example scenario_C :
  plan_subtitles all_present (probe_of ["eng"; "spa"]) movie [] =
  Ok (Remux "srt" [(0, 1, "spa", false); (0, 0, "eng", false)]).
Proof. reflexivity. Qed.

Example scenario_D :
  plan_subtitles all_present (probe_of []) clip [("eng", eng_srt)] =
  Ok (Remux "mov_text" [(1, 0, "eng", true)]).
Proof. reflexivity. Qed.

(** A new source for the preferred language whose file is missing: the
    existing stream of that language is dropped all the same. *)
Example scenario_missing_file :
  plan_subtitles spa_missing (probe_of ["spa"; "eng"]) movie [("spa", spa_srt)] =
  Ok (Remux "srt" [(0, 1, "eng", false)]).
Proof. reflexivity. Qed.

(** * Further properties *)

(** ** The reader on decoded output *)

Lemma stream_entries_lookup (k : nat) (streams : list json) (l : list sub_info) :
  stream_entries k streams = Ok l →
  length l = length streams ∧
  ∀ i fields, streams !! i = Some (JObj fields) →
    ∃ info, l !! i = Some info ∧
            stream_entry (k + i) (JObj fields) = Ok info.
Proof.
  revert k l. induction streams as [|stream rest IH]; intros k l H; simpl in H.
  - injection H as <-. split; [done|]. intros i fields. by rewrite lookup_nil.
  - bind_inv H. bind_inv H. injection H as <-.
    destruct (IH _ _ Ha0) as [Hlen Hrest]. split; [simpl; by rewrite Hlen|].
    intros [|i] fields Hi; simpl in Hi.
    + injection Hi as ->. exists a. by rewrite Nat.add_0_r.
    + destruct (Hrest i fields Hi) as (info & Hinfo & Hentry).
      exists info. split; [done|]. by rewrite <-Nat.add_succ_comm.
Qed.

Lemma stream_entries_Raise (k : nat) (streams : list json) (e : exn) :
  stream_entries k streams = Raise e → e = AttributeError.
Proof.
  revert k. induction streams as [|stream rest IH]; intros k; simpl; [done|].
  destruct (stream_entry k stream) as [entry|e'] eqn:Hentry; simpl.
  - destruct (stream_entries (S k) rest) eqn:Hrest; simpl; [done|].
    intros [= <-]. by eapply IH.
  - intros [= <-]. unfold stream_entry in Hentry.
    destruct stream; simpl in Hentry; try by injection Hentry as <-.
    destruct (assoc "tags" fields) as [[]|]; simpl in Hentry;
      try done; by injection Hentry as <-.
Qed.

(** On a decoded object the handler of the reader has nothing to catch. *)
Lemma reader_decoded (fields : list (string * json)) (items : list json) :
  assoc "streams" fields = Some (JArr items) →
  get_embedded_subtitles (ProbeStdout (Some (JObj fields))) =
  stream_entries 0 items.
Proof.
  intros Hstreams. unfold get_embedded_subtitles. simpl. rewrite Hstreams. simpl.
  destruct (stream_entries 0 items) as [l|e] eqn:H; [done|].
  by rewrite (stream_entries_Raise _ _ _ H).
Qed.

(** X1: on output that decodes to an object with a list of streams the
    reader returns one entry per stream, numbered by position from 0. *)
Theorem reader_numbers_streams (fields : list (string * json))
    (items : list json) (l : list sub_info) :
  assoc "streams" fields = Some (JArr items) →
  get_embedded_subtitles (ProbeStdout (Some (JObj fields))) = Ok l →
  length l = length items ∧ stream_index <$> l = seq 0 (length items).
Proof.
  intros Hstreams H.
  pose proof (get_embedded_subtitles_index _ _ H) as Hindex.
  rewrite (reader_decoded _ _ Hstreams) in H.
  apply stream_entries_lookup in H as [Hlen _]. by rewrite <-Hlen.
Qed.

Lemma reader_numbers_streams_witness :
  length [SubInfo (JInt 2) 0 (JStr "eng"); SubInfo (JInt 2) 1 (JStr "spa")] =
    length (stream <$> ["eng"; "spa"]) ∧
  stream_index <$> [SubInfo (JInt 2) 0 (JStr "eng"); SubInfo (JInt 2) 1 (JStr "spa")] =
    seq 0 (length (stream <$> ["eng"; "spa"])).
Proof.
  apply (reader_numbers_streams [("streams", JArr (stream <$> ["eng"; "spa"]))]);
    reflexivity.
Defined.

(** X2: the entry of a stream carries the language of its tags, and
    "und" when the stream has no tags or its tags have no language; its
    index is the "index" of the stream, None when there is none. *)
Theorem reader_language_default (fields : list (string * json))
    (items : list json) (l : list sub_info) (i : nat)
    (stream_fields : list (string * json)) :
  assoc "streams" fields = Some (JArr items) →
  get_embedded_subtitles (ProbeStdout (Some (JObj fields))) = Ok l →
  items !! i = Some (JObj stream_fields) →
  ∃ info,
    l !! i = Some info ∧
    stream_index info = i ∧
    index info = default JNull (assoc "index" stream_fields) ∧
    (assoc "tags" stream_fields = None → language info = JStr "und") ∧
    (∀ tags, assoc "tags" stream_fields = Some (JObj tags) →
             language info = default (JStr "und") (assoc "language" tags)).
Proof.
  intros Hstreams H Hi. rewrite (reader_decoded _ _ Hstreams) in H.
  apply stream_entries_lookup in H as [_ Hlook].
  destruct (Hlook _ _ Hi) as (info & Hinfo & Hentry). exists info.
  unfold stream_entry in Hentry. simpl in Hentry.
  destruct (assoc "tags" stream_fields) as [tags|] eqn:Htags; simpl in Hentry.
  - bind_inv Hentry. injection Hentry as <-. split_and!; try done.
    intros tags' [= ->]. simpl in Ha. by injection Ha as <-.
  - injection Hentry as <-. by split_and!.
Qed.

Lemma reader_language_default_witness :
  ∃ info,
    [SubInfo JNull 0 (JStr "und")] !! 0 = Some info ∧
    stream_index info = 0 ∧
    index info = default JNull (assoc "index" [("codec_name", JStr "subrip")]) ∧
    (assoc "tags" [("codec_name", JStr "subrip")] = None →
     language info = JStr "und") ∧
    (∀ tags, assoc "tags" [("codec_name", JStr "subrip")] = Some (JObj tags) →
             language info = default (JStr "und") (assoc "language" tags)).
Proof.
  apply (reader_language_default
           [("streams", JArr [JObj [("codec_name", JStr "subrip")]])]
           [JObj [("codec_name", JStr "subrip")]]);
    reflexivity.
Defined.

Lemma stream_entries_Ok (k : nat) (streams : list json) :
  (∃ l, stream_entries k streams = Ok l) ↔ Forall (λ s, stream_ok s = true) streams.
Proof.
  revert k. induction streams as [|stream rest IH]; intros k; simpl.
  - split; [constructor|by eexists].
  - split.
    + intros [l H]. bind_inv H. bind_inv H. constructor; [|apply (IH (S k)); by eexists].
      unfold stream_entry in Ha. bind_inv Ha. bind_inv Ha. bind_inv Ha.
      destruct stream; try done. simpl in *. injection Ha1 as <-.
      destruct (assoc "tags" fields) as [[]|]; by simplify_eq/=.
    + intros [Hok [l Hl]%(IH (S k))]%Forall_cons. rewrite Hl.
      destruct stream; try done. simpl in Hok. unfold stream_entry. simpl.
      destruct (assoc "tags" fields) as [[]|]; try done; by eexists.
Qed.

(** X3: on a decoded list of streams the reader returns exactly when
    every stream is an object whose tags, if any, are an object; on any
    other list it raises AttributeError. *)
Theorem reader_shape (fields : list (string * json)) (items : list json) :
  assoc "streams" fields = Some (JArr items) →
  ((∃ l, get_embedded_subtitles (ProbeStdout (Some (JObj fields))) = Ok l) ↔
   Forall (λ s, stream_ok s = true) items) ∧
  (¬ Forall (λ s, stream_ok s = true) items →
   get_embedded_subtitles (ProbeStdout (Some (JObj fields))) = Raise AttributeError).
Proof.
  intros Hstreams. rewrite (reader_decoded _ _ Hstreams).
  split; [apply stream_entries_Ok|].
  intros Hbad. destruct (stream_entries 0 items) as [l|e] eqn:H.
  - destruct Hbad. apply (stream_entries_Ok 0). by eexists.
  - by rewrite (stream_entries_Raise _ _ _ H).
Qed.

Lemma reader_shape_witness :
  ((∃ l, get_embedded_subtitles
           (ProbeStdout (Some (JObj [("streams", JArr [stream "eng"; JStr "x"])]))) = Ok l) ↔
   Forall (λ s, stream_ok s = true) [stream "eng"; JStr "x"]) ∧
  (¬ Forall (λ s, stream_ok s = true) [stream "eng"; JStr "x"] →
   get_embedded_subtitles
     (ProbeStdout (Some (JObj [("streams", JArr [stream "eng"; JStr "x"])]))) =
   Raise AttributeError).
Proof.
  apply (reader_shape [("streams", JArr [stream "eng"; JStr "x"])]).
  reflexivity.
Defined.

(** ** Failures of the probe, case by case *)




(** ** The set of embedded languages *)

Lemma lower_ascii_idemp (c : ascii) : lower_ascii (lower_ascii c) = lower_ascii c.
Proof. by destruct c as [[] [] [] [] [] [] [] []]. Qed.

Lemma lower_idemp (s : string) : lower (lower s) = lower s.
Proof.
  induction s as [|c s IH]; [done|].
  change (String (lower_ascii (lower_ascii c)) (lower (lower s)) =
          String (lower_ascii c) (lower s)).
  by rewrite lower_ascii_idemp, IH.
Qed.

Lemma lower_method_lower (v : json) (l : string) :
  lower_method v = Ok l → lower l = l.
Proof. destruct v; try done. intros [= <-]. apply lower_idemp. Qed.

Lemma elem_of_lowered_languages (embedded : list sub_info)
    (langs : gset string) (l : string) :
  lowered_languages embedded = Ok langs →
  (l ∈ langs ↔ ∃ info, info ∈ embedded ∧ lower_method (language info) = Ok l).
Proof.
  revert langs. induction embedded as [|info rest IH]; intros langs H; simpl in H.
  - injection H as <-. split; [set_solver|]. by intros (? & ?%elem_of_nil & _).
  - bind_inv H. bind_inv H. injection H as <-. specialize (IH _ Ha0).
    rewrite elem_of_union, elem_of_singleton, IH. split.
    + intros [->|(info' & ? & ?)]; [exists info|exists info'];
        by rewrite elem_of_cons; auto.
    + intros (info' & [->|?]%elem_of_cons & Hl); [left; congruence|right].
      by exists info'.
Qed.

(** When the languages can be read, both loops of the planner can run. *)
Lemma lowered_languages_planner (embedded : list sub_info) (langs : gset string)
    (files : list (string * Path)) :
  lowered_languages embedded = Ok langs →
  (∃ b, spanish_is_first embedded = Ok b) ∧
  (∃ items, existing_items files embedded = Ok items).
Proof.
  revert langs. induction embedded as [|info rest IH]; intros langs H; simpl in H.
  - split; by eexists.
  - bind_inv H. bind_inv H. destruct (IH _ Ha0) as [_ [items Hitems]].
    simpl. rewrite Ha, Hitems. simpl. split; by eexists.
Qed.

(** X4: the languages that [get_embedded_languages] reports are the
    lowered language tags of the streams, and each of them is in lower
    case. *)
Theorem embedded_languages_lowered (p : probe) (langs : gset string) :
  get_embedded_languages p = Ok langs →
  ∃ embedded,
    get_embedded_subtitles p = Ok embedded ∧
    ∀ l, (l ∈ langs ↔
          ∃ info, info ∈ embedded ∧ lower_method (language info) = Ok l) ∧
         (l ∈ langs → lower l = l).
Proof.
  unfold get_embedded_languages. intros H. bind_inv H. exists a.
  split; [done|]. intros l.
  pose proof (elem_of_lowered_languages _ _ l H) as Hl. split; [done|].
  intros (info & _ & Hinfo)%Hl. by eapply lower_method_lower.
Qed.

Lemma embedded_languages_lowered_witness :
  ∃ embedded,
    get_embedded_subtitles (probe_of ["SPA"; "Eng"]) = Ok embedded ∧
    ∀ l, (l ∈ ({[ "spa"; "eng" ]} : gset string) ↔
          ∃ info, info ∈ embedded ∧ lower_method (language info) = Ok l) ∧
         (l ∈ ({[ "spa"; "eng" ]} : gset string) → lower l = l).
Proof.
  apply (embedded_languages_lowered (probe_of ["SPA"; "Eng"])).
  vm_compute. reflexivity.
Defined.

(** X5: when [get_embedded_languages] returns for a video, no language
    tag makes the planner raise on the same inventory, whatever the new
    sources are: for a file system that answers every [exists] query,
    the test of the first stream, both loops and the sort go through,
    and the function arrives at the copy or at the run of ffmpeg. *)
Theorem languages_then_embed (exists_ : Path → bool) (p : probe)
    (langs : gset string) (video_path output_path : Path)
    (files : list (string * Path)) :
  get_embedded_languages p = Ok langs →
  ∃ pl eff,
    plan_subtitles exists_ p video_path files = Ok pl ∧
    embed_subtitles_into_video exists_ p video_path output_path files = Ok eff.
Proof.
  unfold get_embedded_languages. intros H. bind_inv H.
  destruct (lowered_languages_planner _ _ files H) as [[b Hb] [items Hitems]].
  assert (∃ pl, plan_subtitles exists_ p video_path files = Ok pl) as [pl Hpl].
  { unfold plan_subtitles, candidates. rewrite Ha. simpl. rewrite Hb. simpl.
    rewrite Hitems. simpl. repeat case_match; by eexists. }
  unfold embed_subtitles_into_video. rewrite Hpl. simpl.
  destruct pl; by eexists _, _.
Qed.

Lemma languages_then_embed_witness :
  ∃ pl eff,
    plan_subtitles all_present (probe_of ["eng"]) movie [("spa", spa_srt)] = Ok pl ∧
    embed_subtitles_into_video all_present (probe_of ["eng"]) movie movie_out
      [("spa", spa_srt)] = Ok eff.
Proof.
  apply (languages_then_embed all_present (probe_of ["eng"]) {[ "eng" ]}).
  vm_compute. reflexivity.
Defined.

(** ** When the function copies and when it remuxes *)

Lemma plan_subtitles_NoOp (exists_ : Path → bool) (p : probe)
    (video_path : Path) (files : list (string * Path))
    (existing_subs : list sub_info) (pl : plan) :
  get_embedded_subtitles p = Ok existing_subs →
  plan_subtitles exists_ p video_path files = Ok pl →
  (pl = NoOp ↔
   (files = [] ∧ (existing_subs = [] ∨ spanish_is_first existing_subs = Ok true)) ∨
   candidates exists_ existing_subs files = Ok []).
Proof.
  intros Hp H. unfold plan_subtitles in H. rewrite Hp in H. simpl in H.
  destruct (spanish_is_first existing_subs) as [b|e] eqn:Hb; simpl in H; [|done].
  destruct (bool_decide (files = [])) eqn:Hfiles;
    [apply bool_decide_eq_true in Hfiles|apply bool_decide_eq_false in Hfiles];
    (destruct (bool_decide (existing_subs = [])) eqn:Hex;
      [apply bool_decide_eq_true in Hex|apply bool_decide_eq_false in Hex]);
    destruct b; simpl in H;
    try (injection H as <-; split; [intros _; left; split; [done|]; by auto|done]).
  all: destruct (candidates exists_ existing_subs files) as [cands|e] eqn:Hc;
    simpl in H; [|done].
  all: case_bool_decide as Hnil; injection H as <-.
  all: try (apply list_sort_nil in Hnil as ->; split; [intros _; by right|done]).
  all: split; [done|].
  all: intros [[? [?|?]]|?]; by simplify_eq.
Qed.

(** X6: the function copies the video in three cases only: there is no
    new source and no existing stream; there is no new source and the
    first stream already carries the preferred language; or no candidate
    is left.  In every other case it remuxes. *)
Theorem copy_exactly_when (exists_ : Path → bool) (p : probe)
    (video_path : Path) (files : list (string * Path))
    (existing_subs : list sub_info) (pl : plan) :
  get_embedded_subtitles p = Ok existing_subs →
  plan_subtitles exists_ p video_path files = Ok pl →
  (pl = NoOp ↔
   (files = [] ∧ (existing_subs = [] ∨ spanish_is_first existing_subs = Ok true)) ∨
   candidates exists_ existing_subs files = Ok []).
Proof. apply plan_subtitles_NoOp. Qed.

Lemma copy_exactly_when_witness :
  Remux "srt" [(0, 1, "spa", false); (0, 0, "eng", false)] = NoOp ↔
  (([] : list (string * Path)) = [] ∧
   ([SubInfo (JInt 2) 0 (JStr "eng"); SubInfo (JInt 2) 1 (JStr "spa")] = [] ∨
    spanish_is_first
      [SubInfo (JInt 2) 0 (JStr "eng"); SubInfo (JInt 2) 1 (JStr "spa")] = Ok true)) ∨
  candidates all_present
    [SubInfo (JInt 2) 0 (JStr "eng"); SubInfo (JInt 2) 1 (JStr "spa")] [] = Ok [].
Proof.
  apply (copy_exactly_when all_present (probe_of ["eng"; "spa"]) movie);
    reflexivity.
Defined.

(** The first track of a remux whose candidates hold the preferred
    language carries it. *)
Lemma head_preferred (cands : list sub_item) :
  (∃ item, item ∈ cands ∧ preferred item) →
  ∃ first,
    head (filter preferred cands ++ filter (λ item, ¬ preferred item) cands) =
      Some first ∧
    first ∈ cands ∧ preferred first.
Proof.
  intros (item & Hitem & Hpref).
  destruct (filter preferred cands) as [|first rest] eqn:Hfilter.
  - by destruct (filter_nil_not_elem_of preferred _ item Hfilter).
  - exists first. split; [done|].
    assert (first ∈ filter preferred cands) as [? ?]%list_elem_of_filter
      by (rewrite Hfilter; by left).
    done.
Qed.

(** X7: when the video has an embedded stream of the preferred language
    and no new source is declared for it, the output has that language
    first: either the function copies a video whose first stream
    carries it, or the first track of the remux is an existing stream
    that carries it. *)
Theorem embedded_spanish_first (exists_ : Path → bool) (p : probe)
    (langs : gset string) (video_path : Path)
    (files : list (string * Path)) (pl : plan) :
  get_embedded_languages p = Ok langs →
  "spa" ∈ langs →
  "spa" ∉ files.*1 →
  plan_subtitles exists_ p video_path files = Ok pl →
  ∃ existing_subs,
    get_embedded_subtitles p = Ok existing_subs ∧
    ((pl = NoOp ∧ spanish_is_first existing_subs = Ok true) ∨
     (∃ codec all_subs first,
        pl = Remux codec all_subs ∧ head all_subs = Some first ∧
        lang first = "spa" ∧ is_new first = false)).
Proof.
  unfold get_embedded_languages. intros Hlangs Hspa Hkey Hplan. bind_inv Hlangs.
  exists a. split; [done|].
  apply (elem_of_lowered_languages _ _ _ Hlangs) in Hspa as (info & Hin & Hl).
  assert (preferred_survives files a) as Hsurv by by exists info.
  destruct pl as [|codec all_subs].
  - left. split; [done|].
    destruct (plan_subtitles_NoOp _ _ _ _ _ _ Ha Hplan) as [Hcase _].
    destruct (Hcase eq_refl) as [[_ [->|?]]|Hc]; [by apply elem_of_nil in Hin|done|].
    apply (preferred_candidate exists_) in Hc as Hpref.
    destruct Hpref as [_ Hpref].
    destruct Hpref as (item & ?%elem_of_nil & _); [by left|done].
  - right.
    apply plan_subtitles_Remux in Hplan
      as (existing_subs & cands & Hp & Hc & _ & _ & ->).
    rewrite Ha in Hp. injection Hp as <-.
    apply (preferred_candidate exists_) in Hc as Hpref.
    destruct (head_preferred cands) as (first & Hhead & Hfirst & Hfp);
      [apply Hpref; by left|].
    eexists _, _, first. split_and!; try done.
    unfold candidates in Hc. bind_inv Hc. injection Hc as <-.
    apply elem_of_app in Hfirst as [Hfirst|Hfirst].
    + by apply (elem_of_existing_items _ _ _ _ Ha0) in Hfirst
        as (? & ? & _ & _ & _ & ->).
    + apply elem_of_new_items in Hfirst as (i & [k path] & Hi & ->).
      unfold preferred, lang in Hfp. simpl in Hfp. subst k. destruct Hkey.
      apply list_elem_of_lookup_2, list_elem_of_filter in Hi as [_ Hi].
      by apply (list_elem_of_fmap_2 fst) in Hi.
Qed.

Lemma embedded_spanish_first_witness :
  ∃ existing_subs,
    get_embedded_subtitles (probe_of ["eng"; "Spa"]) = Ok existing_subs ∧
    ((Remux "srt" [(0, 1, "spa", false); (1, 0, "eng", true)] = NoOp ∧
      spanish_is_first existing_subs = Ok true) ∨
     (∃ codec all_subs first,
        Remux "srt" [(0, 1, "spa", false); (1, 0, "eng", true)] =
          Remux codec all_subs ∧
        head all_subs = Some first ∧
        lang first = "spa" ∧ is_new first = false)).
Proof.
  apply (embedded_spanish_first all_present (probe_of ["eng"; "Spa"])
           {[ "eng"; "spa" ]} movie [("eng", eng_srt)]).
  - vm_compute. reflexivity.
  - apply (bool_decide_unpack _). vm_compute. reflexivity.
  - apply (bool_decide_unpack _). vm_compute. reflexivity.
  - reflexivity.
Defined.

(** X8: processing the result again changes nothing.  When a remux has
    the preferred language among its candidates, a later run with no new
    source on a video whose streams carry the languages of that plan,
    in its order, copies the video. *)
Theorem second_run_copies (exists_ exists_later : Path → bool) (p later : probe)
    (video_path video_later output_later : Path)
    (files : list (string * Path)) (codec : string)
    (all_subs : list sub_item) (existing_subs embedded : list sub_info) :
  get_embedded_subtitles p = Ok existing_subs →
  plan_subtitles exists_ p video_path files = Ok (Remux codec all_subs) →
  preferred_survives files existing_subs ∨ preferred_supplied exists_ files →
  get_embedded_subtitles later = Ok embedded →
  language <$> embedded = JStr <$> (lang <$> all_subs) →
  embed_subtitles_into_video exists_later later video_later output_later [] =
    Ok (Copy2 (str video_later) (str output_later)).
Proof.
  intros Hp Hplan Havail Hlater Hlangs.
  apply plan_subtitles_Remux in Hplan
    as (existing_subs' & cands & Hp' & Hc & _ & _ & ->).
  rewrite Hp in Hp'. injection Hp' as <-.
  destruct (head_preferred cands) as (first & Hhead & _ & Hfirst);
    [by apply (preferred_candidate exists_ _ _ _ Hc)|].
  unfold embed_subtitles_into_video, plan_subtitles. rewrite Hlater. simpl.
  destruct (filter preferred cands ++ filter (λ item, ¬ preferred item) cands)
    as [|item rest]; [done|].
  injection Hhead as ->.
  destruct embedded as [|info embedded]; [done|]. injection Hlangs as Hinfo _.
  simpl. rewrite Hinfo, Hfirst. done.
Qed.

Lemma second_run_copies_witness :
  embed_subtitles_into_video all_present (probe_of ["spa"; "eng"]) movie movie_out [] =
    Ok (Copy2 (str movie) (str movie_out)).
Proof.
  apply (second_run_copies all_present all_present (probe_of ["eng"])
           (probe_of ["spa"; "eng"]) movie movie movie_out [("spa", spa_srt)]
           "srt" [(1, 0, "spa", true); (0, 0, "eng", false)]
           [SubInfo (JInt 2) 0 (JStr "eng")]
           [SubInfo (JInt 2) 0 (JStr "spa"); SubInfo (JInt 2) 1 (JStr "eng")]);
    try reflexivity.
  right. exists spa_srt. split; [by left|reflexivity].
Defined.

(** ** The layout of the command *)

Lemma lookup_app_plus {A} (l1 l2 : list A) (k : nat) :
  (l1 ++ l2) !! (length l1 + k) = l2 !! k.
Proof. rewrite lookup_app_r by lia. f_equal. lia. Qed.

(** Moves a lookup past the first segment of an append; [k] is the
    position in what follows. *)
Ltac skip_segment k :=
  match goal with
  | |- (?l ++ _) !! ?j = _ =>
      replace j with (length l + k) by (simpl; lia); rewrite lookup_app_plus
  end.

Lemma input_args_lookup (inputs : list (string * Path)) (i : nat)
    (entry : string * Path) :
  inputs !! i = Some entry →
  (inputs ≫= λ entry, ["-i"; str entry.2]) !! (2 * i) = Some "-i" ∧
  (inputs ≫= λ entry, ["-i"; str entry.2]) !! (2 * i + 1) = Some (str entry.2).
Proof.
  revert i. induction inputs as [|e inputs IH]; intros [|i] Hi;
    [done|done| |]; rewrite bind_cons.
  - by injection Hi as ->.
  - split; [skip_segment (2 * i)|skip_segment (2 * i + 1)]; by apply IH.
Qed.

Lemma input_args_length (inputs : list (string * Path)) :
  length (inputs ≫= λ entry, ["-i"; str entry.2]) = 2 * length inputs.
Proof.
  induction inputs as [|e inputs IH]; [done|].
  rewrite bind_cons, length_app, IH. simpl. lia.
Qed.

Lemma map_args_cons (item : sub_item) (all_subs : list sub_item) :
  map_args (item :: all_subs) =
  ["-map"; if decide (input_idx item = 0)
           then "0:s:" +:+ pretty (stream_idx item)
           else pretty (input_idx item) +:+ ":0"] ++ map_args all_subs.
Proof.
  unfold map_args. rewrite bind_cons. destruct item as [[[ix sx] l] new].
  unfold input_idx, stream_idx. simpl. by case_decide.
Qed.

Lemma map_args_lookup (all_subs : list sub_item) (i : nat) (item : sub_item) :
  all_subs !! i = Some item →
  map_args all_subs !! (2 * i) = Some "-map" ∧
  map_args all_subs !! (2 * i + 1) =
    Some (if decide (input_idx item = 0)
          then "0:s:" +:+ pretty (stream_idx item)
          else pretty (input_idx item) +:+ ":0").
Proof.
  revert i. induction all_subs as [|item' subs IH]; intros [|i] Hi;
    [done|done| |]; rewrite map_args_cons.
  - by injection Hi as ->.
  - split; [skip_segment (2 * i)|skip_segment (2 * i + 1)]; by apply IH.
Qed.

Lemma map_args_length (all_subs : list sub_item) :
  length (map_args all_subs) = 2 * length all_subs.
Proof.
  induction all_subs as [|item subs IH]; [done|].
  rewrite map_args_cons, length_app, IH. simpl. lia.
Qed.

Lemma codec_args_shape (codec : string) (all_subs : list sub_item) :
  Forall (λ l, length l = 4)
    (imap (λ out_idx '(input_idx, stream_idx, lang, is_new),
       [ "-c:s:" +:+ pretty out_idx;
         if is_new : bool then codec else "copy";
         "-metadata:s:s:" +:+ pretty out_idx;
         "language=" +:+ lang ]) all_subs).
Proof.
  apply Forall_forall. intros l [j Hj]%list_elem_of_lookup_1.
  apply list_lookup_imap_Some in Hj as ([[[? ?] ?] ?] & _ & ->). done.
Qed.

Lemma codec_args_length (codec : string) (all_subs : list sub_item) :
  length (codec_args codec all_subs) = 4 * length all_subs.
Proof.
  unfold codec_args. rewrite length_join.
  rewrite (sum_list_fmap_same 4) by apply codec_args_shape.
  rewrite length_imap. unfold sub_item. lia.
Qed.

Lemma codec_args_metadata (codec : string) (all_subs : list sub_item)
    (i : nat) (item : sub_item) :
  all_subs !! i = Some item →
  codec_args codec all_subs !! (i * 4 + 2) = Some ("-metadata:s:s:" +:+ pretty i) ∧
  codec_args codec all_subs !! (i * 4 + 3) = Some ("language=" +:+ lang item).
Proof.
  intros Hi. pose proof (codec_args_shape codec all_subs) as Hshape.
  unfold codec_args. destruct item as [[[ix sx] l] new].
  split; (apply (join_lookup_Some_same_length' 4); [done|lia|]);
    (eexists; split;
       [apply list_lookup_imap_Some; eexists; split; [exact Hi|reflexivity]|done]).
Qed.

(** X9: in the command of a remux every output track has, in output
    order, its [-map] directive and, after the codecs of video and
    audio, its codec, its metadata option and its language; the [-map]
    of a track of input 0 selects the subtitle stream by its position,
    that of a new track selects stream 0 of its input. *)
Theorem track_directives (exists_ : Path → bool) (video_path output_path : Path)
    (files : list (string * Path)) (codec : string)
    (all_subs : list sub_item) (i : nat) (item : sub_item) :
  all_subs !! i = Some item →
  let cmd := ffmpeg_cmd exists_ video_path output_path files codec all_subs in
  let m := length (sub_inputs exists_ files) in
  let n := length all_subs in
  length cmd = 13 + 2 * m + 6 * n ∧
  cmd !! (8 + 2 * m + 2 * i) = Some "-map" ∧
  cmd !! (9 + 2 * m + 2 * i) =
    Some (if decide (input_idx item = 0)
          then "0:s:" +:+ pretty (stream_idx item)
          else pretty (input_idx item) +:+ ":0") ∧
  cmd !! (12 + 2 * m + 2 * n + 4 * i) = Some ("-c:s:" +:+ pretty i) ∧
  cmd !! (13 + 2 * m + 2 * n + 4 * i) =
    Some (if is_new item then codec else "copy") ∧
  cmd !! (14 + 2 * m + 2 * n + 4 * i) = Some ("-metadata:s:s:" +:+ pretty i) ∧
  cmd !! (15 + 2 * m + 2 * n + 4 * i) = Some ("language=" +:+ lang item).
Proof.
  intros Hi cmd m n.
  destruct (map_args_lookup _ _ _ Hi) as [Hmap0 Hmap1].
  destruct (codec_args_lookup codec _ _ _ Hi) as [Hc0 Hc1].
  destruct (codec_args_metadata codec _ _ _ Hi) as [Hc2 Hc3].
  pose proof (input_args_length (sub_inputs exists_ files)) as Hilen.
  pose proof (map_args_length all_subs) as Hmlen.
  pose proof (codec_args_length codec all_subs) as Hclen.
  fold m in Hilen. fold n in Hmlen, Hclen.
  unfold cmd, ffmpeg_cmd. split_and!.
  - rewrite !length_app, Hilen, Hmlen, Hclen. simpl. lia.
  - skip_segment (4 + 2 * m + 2 * i). skip_segment (4 + 2 * i).
    skip_segment (2 * i). by apply lookup_app_l_Some.
  - skip_segment (5 + 2 * m + 2 * i). skip_segment (5 + 2 * i).
    skip_segment (2 * i + 1). by apply lookup_app_l_Some.
  - skip_segment (8 + 2 * m + 2 * n + 4 * i). skip_segment (8 + 2 * n + 4 * i).
    skip_segment (4 + 2 * n + 4 * i). skip_segment (4 + 4 * i).
    skip_segment (i * 4). by apply lookup_app_l_Some.
  - skip_segment (9 + 2 * m + 2 * n + 4 * i). skip_segment (9 + 2 * n + 4 * i).
    skip_segment (5 + 2 * n + 4 * i). skip_segment (5 + 4 * i).
    skip_segment (i * 4 + 1). by apply lookup_app_l_Some.
  - skip_segment (10 + 2 * m + 2 * n + 4 * i). skip_segment (10 + 2 * n + 4 * i).
    skip_segment (6 + 2 * n + 4 * i). skip_segment (6 + 4 * i).
    skip_segment (i * 4 + 2). by apply lookup_app_l_Some.
  - skip_segment (11 + 2 * m + 2 * n + 4 * i). skip_segment (11 + 2 * n + 4 * i).
    skip_segment (7 + 2 * n + 4 * i). skip_segment (7 + 4 * i).
    skip_segment (i * 4 + 3). by apply lookup_app_l_Some.
Qed.

Lemma track_directives_witness :
  let cmd := ffmpeg_cmd all_present movie movie_out [("spa", spa_srt)] "srt"
               [(1, 0, "spa", true); (0, 0, "eng", false)] in
  let m := length (sub_inputs all_present [("spa", spa_srt)]) in
  let n := length [(1, 0, "spa", true); (0, 0, "eng", false)] in
  length cmd = 13 + 2 * m + 6 * n ∧
  cmd !! (8 + 2 * m + 2 * 1) = Some "-map" ∧
  cmd !! (9 + 2 * m + 2 * 1) =
    Some (if decide (input_idx (0, 0, "eng", false) = 0)
          then "0:s:" +:+ pretty (stream_idx (0, 0, "eng", false))
          else pretty (input_idx (0, 0, "eng", false)) +:+ ":0") ∧
  cmd !! (12 + 2 * m + 2 * n + 4 * 1) = Some ("-c:s:" +:+ pretty 1) ∧
  cmd !! (13 + 2 * m + 2 * n + 4 * 1) =
    Some (if is_new (0, 0, "eng", false) then "srt" else "copy") ∧
  cmd !! (14 + 2 * m + 2 * n + 4 * 1) = Some ("-metadata:s:s:" +:+ pretty 1) ∧
  cmd !! (15 + 2 * m + 2 * n + 4 * 1) =
    Some ("language=" +:+ lang (0, 0, "eng", false)).
Proof.
  apply (track_directives all_present movie movie_out [("spa", spa_srt)] "srt"
           [(1, 0, "spa", true); (0, 0, "eng", false)] 1 (0, 0, "eng", false)).
  reflexivity.
Defined.

(** X10: a new track of a remux selects the very file that was supplied
    for its language: its input index counts the [-i] options of the
    command, and the file named there is bound to the language of the
    track in [subtitle_files] and exists. *)
Theorem new_track_input (exists_ : Path → bool) (p : probe)
    (video_path output_path : Path) (files : list (string * Path))
    (codec : string) (all_subs : list sub_item) (item : sub_item) :
  plan_subtitles exists_ p video_path files = Ok (Remux codec all_subs) →
  item ∈ all_subs →
  is_new item = true →
  let cmd := ffmpeg_cmd exists_ video_path output_path files codec all_subs in
  ∃ path,
    (lang item, path) ∈ files ∧ exists_ path = true ∧
    1 ≤ input_idx item ∧ stream_idx item = 0 ∧
    cmd !! (2 + 2 * input_idx item) = Some "-i" ∧
    cmd !! (3 + 2 * input_idx item) = Some (str path).
Proof.
  intros Hplan Hitem Hnew cmd.
  destruct (elem_of_slots _ _ _ _ (Remux codec all_subs) _ Hplan Hitem)
    as (existing_subs & cands & _ & Hc & Hcand).
  unfold candidates in Hc. bind_inv Hc. injection Hc as <-.
  apply elem_of_app in Hcand as [Hcand|Hcand].
  { by apply (elem_of_existing_items _ _ _ _ Ha) in Hcand
      as (? & ? & _ & _ & _ & ->). }
  apply elem_of_new_items in Hcand as (i & [k path] & Hi & ->).
  exists path.
  destruct (input_args_lookup _ _ _ Hi) as [Hopt Hfile].
  apply list_elem_of_lookup_2, list_elem_of_filter in Hi as [Hex Hin].
  simpl in Hex. apply Is_true_true in Hex.
  unfold cmd, ffmpeg_cmd, lang, input_idx, stream_idx. cbn [fst snd].
  split_and!; [done|done|lia|done| |].
  - skip_segment (2 * i). by apply lookup_app_l_Some.
  - skip_segment (2 * i + 1). by apply lookup_app_l_Some.
Qed.

Lemma new_track_input_witness :
  let cmd := ffmpeg_cmd all_present movie movie_out
               [("eng", eng_srt); ("spa", spa_srt)] "srt"
               [(2, 0, "spa", true); (1, 0, "eng", true)] in
  ∃ path,
    (lang (2, 0, "spa", true), path) ∈ [("eng", eng_srt); ("spa", spa_srt)] ∧
    all_present path = true ∧
    1 ≤ input_idx (2, 0, "spa", true) ∧ stream_idx (2, 0, "spa", true) = 0 ∧
    cmd !! (2 + 2 * input_idx (2, 0, "spa", true)) = Some "-i" ∧
    cmd !! (3 + 2 * input_idx (2, 0, "spa", true)) = Some (str path).
Proof.
  apply (new_track_input all_present (probe_of []) movie movie_out
           [("eng", eng_srt); ("spa", spa_srt)] "srt"
           [(2, 0, "spa", true); (1, 0, "eng", true)] (2, 0, "spa", true)).
  - reflexivity.
  - by left.
  - reflexivity.
Defined.

(** ** Nothing is lost *)

(** X11: the tracks of a remux are the candidates, each once: the
    existing streams that no new source replaces and the new sources
    whose file exists. *)
Theorem plan_keeps_candidates (exists_ : Path → bool) (p : probe)
    (video_path : Path) (files : list (string * Path))
    (codec : string) (all_subs : list sub_item) :
  plan_subtitles exists_ p video_path files = Ok (Remux codec all_subs) →
  ∃ existing_subs existing,
    get_embedded_subtitles p = Ok existing_subs ∧
    existing_items files existing_subs = Ok existing ∧
    all_subs ≡ₚ existing ++ new_items (sub_inputs exists_ files) ∧
    length all_subs = length existing + length (sub_inputs exists_ files).
Proof.
  intros (existing_subs & cands & Hp & Hc & _ & _ & ->)%plan_subtitles_Remux.
  unfold candidates in Hc. bind_inv Hc. injection Hc as <-.
  exists existing_subs, a. split_and!; try done.
  - apply filter_app_complement.
  - rewrite filter_app_complement, length_app. unfold new_items.
    by rewrite length_imap.
Qed.

Lemma plan_keeps_candidates_witness :
  ∃ existing_subs existing,
    get_embedded_subtitles (probe_of ["eng"; "spa"]) = Ok existing_subs ∧
    existing_items [("spa", spa_srt)] existing_subs = Ok existing ∧
    [(1, 0, "spa", true); (0, 0, "eng", false)] ≡ₚ
      existing ++ new_items (sub_inputs all_present [("spa", spa_srt)]) ∧
    length [(1, 0, "spa", true); (0, 0, "eng", false)] =
      length existing + length (sub_inputs all_present [("spa", spa_srt)]).
Proof.
  apply (plan_keeps_candidates all_present (probe_of ["eng"; "spa"]) movie
           [("spa", spa_srt)] "srt").
  reflexivity.
Defined.

Lemma existing_items_all (existing_subs : list sub_info) (items : list sub_item) :
  existing_items [] existing_subs = Ok items →
  stream_idx <$> items = stream_index <$> existing_subs ∧
  Forall (λ item, is_new item = false ∧ input_idx item = 0) items.
Proof.
  revert items. induction existing_subs as [|info rest IH]; intros items H;
    simpl in H.
  - by injection H as <-.
  - bind_inv H. bind_inv H. destruct (IH _ Ha0) as [Hidx Hall].
    injection H as <-. split; [simpl; by f_equal|by constructor].
Qed.

(** X12: with no new source a remux only reorders: every subtitle
    stream of the video is a track of the plan, once, every track is an
    existing stream, and no [-i] option beyond the video is passed. *)
Theorem reorder_keeps_streams (exists_ : Path → bool) (p : probe)
    (video_path : Path) (existing_subs : list sub_info)
    (codec : string) (all_subs : list sub_item) :
  get_embedded_subtitles p = Ok existing_subs →
  plan_subtitles exists_ p video_path [] = Ok (Remux codec all_subs) →
  stream_idx <$> all_subs ≡ₚ seq 0 (length existing_subs) ∧
  Forall (λ item, is_new item = false ∧ input_idx item = 0) all_subs ∧
  sub_inputs exists_ [] = [].
Proof.
  intros Hp (existing_subs' & cands & Hp' & Hc & _ & _ & ->)%plan_subtitles_Remux.
  rewrite Hp in Hp'. injection Hp' as <-.
  unfold candidates in Hc. bind_inv Hc. injection Hc as <-.
  destruct (existing_items_all _ _ Ha) as [Hidx Hall].
  unfold sub_inputs, new_items. simpl. rewrite app_nil_r.
  split_and!; [|by rewrite filter_app_complement|done].
  rewrite filter_app_complement, Hidx.
  by rewrite (get_embedded_subtitles_index _ _ Hp).
Qed.

Lemma reorder_keeps_streams_witness :
  stream_idx <$> [(0, 1, "spa", false); (0, 0, "eng", false); (0, 2, "fra", false)] ≡ₚ
    seq 0 (length [SubInfo (JInt 2) 0 (JStr "eng"); SubInfo (JInt 2) 1 (JStr "spa");
                   SubInfo (JInt 2) 2 (JStr "fra")]) ∧
  Forall (λ item, is_new item = false ∧ input_idx item = 0)
    [(0, 1, "spa", false); (0, 0, "eng", false); (0, 2, "fra", false)] ∧
  sub_inputs all_present [] = [].
Proof.
  apply (reorder_keeps_streams all_present (probe_of ["eng"; "spa"; "fra"]) movie
           _ "srt");
    reflexivity.
Defined.

(** ** Stripping and splitting *)

Lemma lstrip_idemp (s : string) : lstrip (lstrip s) = lstrip s.
Proof.
  induction s as [|c s IH]; [done|]. simpl.
  destruct (is_space c) eqn:Hc; [done|]. simpl. by rewrite Hc.
Qed.

(** What [lstrip] returns does not begin with a space. *)
Lemma lstrip_head (s t : string) (c : ascii) :
  lstrip s = String c t → is_space c = false.
Proof.
  induction s as [|c' s IH]; [done|]. simpl.
  destruct (is_space c') eqn:Hc; [done|]. by intros [= <- _].
Qed.

Lemma rstrip_cons (c : ascii) (s : string) :
  rstrip s ≠ "" → rstrip (String c s) = String c (rstrip s).
Proof. simpl. by destruct (rstrip s). Qed.

Lemma rstrip_cons_nonspace (c : ascii) (s : string) :
  is_space c = false → rstrip (String c s) = String c (rstrip s).
Proof. intros Hc. simpl. rewrite Hc. by destruct (rstrip s). Qed.

Lemma rstrip_idemp (s : string) : rstrip (rstrip s) = rstrip s.
Proof.
  induction s as [|c s IH]; [done|].
  destruct (rstrip s) as [|c' r] eqn:Hr.
  - simpl. rewrite Hr. destruct (is_space c) eqn:Hc; [done|].
    simpl. by rewrite Hc.
  - rewrite rstrip_cons by by rewrite Hr. rewrite Hr.
    rewrite rstrip_cons by by rewrite IH. by rewrite IH.
Qed.

Lemma lstrip_rstrip (s : string) : lstrip (rstrip s) = rstrip (lstrip s).
Proof.
  induction s as [|c s IH]; [done|].
  destruct (is_space c) eqn:Hc.
  - simpl. rewrite Hc, <-IH. destruct (rstrip s) as [|c' r]; [done|].
    simpl. by rewrite Hc.
  - rewrite rstrip_cons_nonspace by done. simpl lstrip. rewrite Hc.
    by rewrite rstrip_cons_nonspace.
Qed.

Lemma strip_idemp (s : string) : strip (strip s) = strip s.
Proof.
  unfold strip. by rewrite <-lstrip_rstrip, rstrip_idemp, lstrip_idemp.
Qed.

(** A stripped string is left alone by both halves of [strip]. *)
Lemma stripped_halves (s : string) :
  strip s = s → lstrip s = s ∧ rstrip s = s.
Proof.
  intros Hs. split; rewrite <-Hs at 1; unfold strip.
  - by rewrite lstrip_idemp.
  - by rewrite lstrip_rstrip, rstrip_idemp, <-lstrip_rstrip.
Qed.

Lemma lstrip_app_blank (ws s : string) :
  lstrip ws = "" → lstrip (ws +:+ s) = lstrip s.
Proof.
  induction ws as [|c ws IH]; [done|]. simpl.
  destruct (is_space c); [done|]. intros [=].
Qed.

Lemma rstrip_blank (ws : string) : lstrip ws = "" → rstrip ws = "".
Proof.
  induction ws as [|c ws IH]; [done|]. simpl.
  destruct (is_space c); [|done]. by intros ->%IH.
Qed.

Lemma rstrip_app_blank (s ws : string) :
  lstrip ws = "" → rstrip (s +:+ ws) = rstrip s.
Proof.
  intros Hws. induction s as [|c s IH]; [by apply rstrip_blank|].
  change (rstrip (String c (s +:+ ws)) = rstrip (String c s)).
  simpl. by rewrite IH.
Qed.

Lemma rstrip_app (a b : string) :
  rstrip b ≠ "" → rstrip (a +:+ b) = a +:+ rstrip b.
Proof.
  intros Hb. induction a as [|c a IH]; [done|].
  change (rstrip (String c (a +:+ b)) = String c (a +:+ rstrip b)).
  rewrite rstrip_cons; [by rewrite IH|].
  rewrite IH. destruct a; [done|discriminate].
Qed.

Lemma lstrip_app_nonspace (x r : string) (c : ascii) :
  is_space c = false →
  lstrip (x +:+ String c r) = lstrip x +:+ String c r.
Proof.
  intros Hc. induction x as [|c' x IH]; simpl; [by rewrite Hc|].
  by destruct (is_space c').
Qed.

Lemma split_eq_app (a b : string) :
  split_eq a = None →
  split_eq (a +:+ b) = (λ kv, (a +:+ kv.1, kv.2)) <$> split_eq b.
Proof.
  induction a as [|c a IH].
  - intros _. change ("" +:+ b) with b. by destruct (split_eq b) as [[? ?]|].
  - change (String c a +:+ b) with (String c (a +:+ b)). simpl.
    case_decide; [done|].
    destruct (split_eq a) as [[? ?]|] eqn:Ha; [done|]. intros _.
    rewrite IH by done. by destruct (split_eq b) as [[? ?]|].
Qed.

Lemma split_eq_key (s key value : string) :
  split_eq s = Some (key, value) → split_eq key = None.
Proof.
  revert key. induction s as [|c s IH]; intros key; [done|]. simpl.
  case_decide as Hc; [by intros [= <- _]|].
  destruct (split_eq s) as [[key' value']|]; [|done]. intros [= <- <-].
  simpl. rewrite decide_False by done. by rewrite (IH key' eq_refl).
Qed.

Lemma split_eq_blank (ws : string) : lstrip ws = "" → split_eq ws = None.
Proof.
  induction ws as [|c ws IH]; [done|]. simpl.
  destruct (is_space c) eqn:Hc; [|done]. intros ->%IH.
  case_decide as Heq; [|done]. by rewrite Heq in Hc.
Qed.

Lemma split_eq_cons (c : ascii) (s : string) :
  c ≠ "="%char → split_eq s = None → split_eq (String c s) = None.
Proof. intros Hc Hs. simpl. rewrite decide_False by done. by rewrite Hs. Qed.

Lemma split_eq_lstrip (s : string) : split_eq s = None → split_eq (lstrip s) = None.
Proof.
  induction s as [|c s IH]; [done|]. simpl.
  case_decide as Hc; [done|].
  destruct (split_eq s) as [[? ?]|] eqn:Hs; [done|]. intros _.
  destruct (is_space c); [by apply IH|].
  simpl. rewrite decide_False by done. by rewrite Hs.
Qed.

Lemma split_eq_rstrip (s : string) : split_eq s = None → split_eq (rstrip s) = None.
Proof.
  induction s as [|c s IH]; [done|]. simpl.
  case_decide as Hc; [done|].
  destruct (split_eq s) as [[? ?]|] eqn:Hs; [done|]. intros _.
  specialize (IH eq_refl). destruct (rstrip s) as [|c' r].
  - destruct (is_space c); [done|]. by apply split_eq_cons.
  - by apply split_eq_cons.
Qed.

Lemma split_eq_strip (s : string) : split_eq s = None → split_eq (strip s) = None.
Proof. intros H. by apply split_eq_lstrip, split_eq_rstrip. Qed.

(** ** Reading the secrets *)

(** X13: a line written as KEY=VALUE, with any white space around the
    key, around the "=" and around the value (the end of line included),
    is read back as the binding of KEY to VALUE, for a stripped key
    without "=" that does not begin with "#" and a stripped value; the
    value may contain "=". *)
Theorem parse_written_line (pad1 key pad2 pad3 value pad4 : string) :
  lstrip pad1 = "" → lstrip pad2 = "" → lstrip pad3 = "" → lstrip pad4 = "" →
  strip key = key → strip value = value →
  split_eq key = None → starts_with_hash key = false →
  parse_line (pad1 +:+ key +:+ pad2 +:+ "=" +:+ pad3 +:+ value +:+ pad4) =
    Some (key, value).
Proof.
  intros H1 H2 H3 H4 Hkey Hvalue Hnoeq Hhash.
  set (T := pad3 +:+ value +:+ pad4).
  assert (strip (rstrip T) = value) as HR.
  { unfold strip, T. rewrite rstrip_idemp, lstrip_rstrip.
    rewrite (lstrip_app_blank pad3) by done.
    by rewrite <-lstrip_rstrip, rstrip_app_blank. }
  set (K := lstrip (key +:+ pad2)).
  assert (strip K = key) as HK.
  { unfold strip, K. rewrite <-lstrip_rstrip, lstrip_idemp.
    by rewrite rstrip_app_blank. }
  assert (split_eq K = None) as HKeq.
  { apply split_eq_lstrip. rewrite split_eq_app by done.
    by rewrite split_eq_blank. }
  assert (starts_with_hash (K +:+ String "=" (rstrip T)) = false) as HKhash.
  { unfold K. destruct key as [|c key'].
    - change ("" +:+ pad2) with pad2. by rewrite H2.
    - apply stripped_halves in Hkey as [Hl _]. apply lstrip_head in Hl.
      change (String c key' +:+ pad2) with (String c (key' +:+ pad2)).
      simpl lstrip. by rewrite Hl. }
  assert (strip (pad1 +:+ key +:+ pad2 +:+ "=" +:+ T) =
          K +:+ String "=" (rstrip T)) as Hline.
  { change ("=" +:+ T) with (String "=" T).
    rewrite (string_app_assoc key pad2), (string_app_assoc pad1).
    unfold strip. rewrite rstrip_app.
    - rewrite rstrip_cons_nonspace by done.
      rewrite lstrip_app_nonspace by done.
      by rewrite lstrip_app_blank.
    - by rewrite rstrip_cons_nonspace. }
  unfold parse_line. fold T. rewrite Hline, HKhash.
  rewrite bool_decide_true by by destruct K.
  rewrite split_eq_app by done. simpl.
  by rewrite string_app_nil_r, HK, HR.
Qed.

Lemma parse_written_line_witness :
  parse_line ("  " +:+ "API_KEY" +:+ " " +:+ "=" +:+ " " +:+ "a=b c" +:+ "
") = Some ("API_KEY", "a=b c").
Proof.
  apply (parse_written_line "  " "API_KEY" " " " " "a=b c" "
"); reflexivity.
Defined.

(** What a line that binds something binds. *)
Lemma parse_line_Some (line key value : string) :
  parse_line line = Some (key, value) →
  strip key = key ∧ strip value = value ∧ split_eq key = None.
Proof.
  unfold parse_line. case_match; [|done].
  destruct (split_eq (strip line)) as [[k v]|] eqn:Hsplit; [|done].
  intros [= <- <-]. rewrite !strip_idemp. split_and!; try done.
  apply split_eq_strip. by eapply split_eq_key.
Qed.

(** The fold of [load_secrets]. *)
Lemma load_secrets_snoc (lines : list string) (line : string) :
  load_secrets (Some (lines ++ [line])) =
  match parse_line line with
  | Some (key, value) => <[key := value]> (load_secrets (Some lines))
  | None => load_secrets (Some lines)
  end.
Proof. unfold load_secrets. by rewrite foldl_app. Qed.

Lemma snoc_split {A} (l l1 l2 : list A) (x y : A) :
  l ++ [x] = l1 ++ y :: l2 →
  (l2 = [] ∧ l = l1 ∧ x = y) ∨ (∃ l2', l2 = l2' ++ [x] ∧ l = l1 ++ y :: l2').
Proof.
  destruct l2 as [|z l2 _] using rev_ind.
  - intros [-> ->]%app_inj_tail. by left.
  - intros Heq. right. exists l2.
    assert (l1 ++ y :: l2 ++ [z] = (l1 ++ y :: l2) ++ [z]) as Hassoc
      by by rewrite <-app_assoc.
    rewrite Hassoc in Heq. by apply app_inj_tail in Heq as [-> ->].
Qed.

Lemma load_secrets_lookup (lines : list string) (key value : string) :
  load_secrets (Some lines) !! key = Some value ↔
  ∃ before line after,
    lines = before ++ line :: after ∧
    parse_line line = Some (key, value) ∧
    ∀ line' value', line' ∈ after → parse_line line' ≠ Some (key, value').
Proof.
  induction lines as [|line lines IH] using rev_ind.
  - split; [done|]. intros (before & l & after & Heq & _).
    by destruct before.
  - rewrite load_secrets_snoc.
    assert ((∃ value', parse_line line = Some (key, value')) ∨
            ¬ ∃ value', parse_line line = Some (key, value'))
      as [[value' Hline]|Hline].
    { destruct (parse_line line) as [[k v]|]; [|right; by intros [? [=]]].
      destruct (decide (k = key)) as [->|]; [left; by eexists|].
      right. by intros [? [=]]. }
    + rewrite Hline, lookup_insert_eq. split.
      * intros [= ->]. exists lines, line, []. split_and!; try done.
        by intros ? ? ?%elem_of_nil.
      * intros (before & l & after & Heq & Hl & Hafter).
        apply snoc_split in Heq as [(-> & -> & ->)|(after' & -> & _)].
        { congruence. }
        destruct (Hafter line value'); [|done].
        apply elem_of_app. right. by left.
    + assert (load_secrets (Some lines) !! key =
              match parse_line line with
              | Some (k, v) => <[k := v]> (load_secrets (Some lines))
              | None => load_secrets (Some lines)
              end !! key) as <-.
      { destruct (parse_line line) as [[k v]|] eqn:Hp; [|done].
        rewrite lookup_insert_ne; [done|]. intros ->. destruct Hline. by eexists. }
      rewrite IH. split.
      * intros (before & l & after & -> & Hl & Hafter).
        exists before, l, (after ++ [line]). split_and!.
        { by rewrite <-app_assoc. }
        { done. }
        intros line' value' [?|Hlast]%elem_of_app.
        { by apply Hafter. }
        apply list_elem_of_singleton in Hlast as ->.
        intros ?. destruct Hline. by eexists.
      * intros (before & l & after & Heq & Hl & Hafter).
        apply snoc_split in Heq as [(-> & -> & ->)|(after' & -> & ->)].
        { destruct Hline. by eexists. }
        exists before, l, after'. split_and!; try done.
        intros line' value' Hin. apply Hafter. apply elem_of_app. by left.
Qed.

(** X14: the value that [load_secrets] holds for a key is that of the
    last line that binds the key. *)
Theorem last_binding_wins (lines : list string) (key value : string) :
  load_secrets (Some lines) !! key = Some value ↔
  ∃ before line after,
    lines = before ++ line :: after ∧
    parse_line line = Some (key, value) ∧
    ∀ line' value', line' ∈ after → parse_line line' ≠ Some (key, value').
Proof. apply load_secrets_lookup. Qed.

(** X15: every key and value that [load_secrets] returns is stripped,
    and no key contains "=". *)
Theorem secrets_stripped (file : option (list string)) (key value : string) :
  load_secrets file !! key = Some value →
  strip key = key ∧ strip value = value ∧ split_eq key = None.
Proof.
  destruct file as [lines|]; [|done].
  intros (_ & line & _ & _ & Hline & _)%load_secrets_lookup.
  by eapply parse_line_Some.
Qed.

Lemma secrets_stripped_witness :
  strip "USER" = "USER" ∧ strip "a = b" = "a = b" ∧ split_eq "USER" = None.
Proof.
  apply (secrets_stripped (Some ["# account"; "  USER =  a = b  "]) "USER" "a = b").
  reflexivity.
Defined.

(** X16: a line that is blank, that is a comment, or that has no "="
    changes nothing, wherever it stands in the file. *)
Theorem ignored_lines (before after : list string) (line : string) :
  strip line = "" ∨ starts_with_hash (strip line) = true ∨ split_eq line = None →
  load_secrets (Some (before ++ line :: after)) =
  load_secrets (Some (before ++ after)).
Proof.
  intros Hline.
  assert (parse_line line = None) as Hnone.
  { unfold parse_line. destruct Hline as [->|[->|Hsplit]]; [done| |].
    - by rewrite andb_false_r.
    - rewrite (split_eq_strip _ Hsplit). by case_match. }
  unfold load_secrets. rewrite !foldl_app. simpl. by rewrite Hnone.
Qed.

Lemma ignored_lines_witness :
  load_secrets (Some (["A=1"] ++ "  # B=2" :: ["C=3"])) =
  load_secrets (Some (["A=1"] ++ ["C=3"])).
Proof.
  apply (ignored_lines ["A=1"] ["C=3"] "  # B=2"). right. left. reflexivity.
Defined.

(** One block of [build_provider_configs] on a provider that is not yet
    configured. *)
Lemma add_provider_lookup (secrets : gmap string string)
    (provider username password : string)
    (configs : gmap string (gmap string string)) (config : gmap string string) :
  configs !! provider = None →
  add_provider secrets provider username password configs !! provider = Some config ↔
  ∃ user pass,
    secrets !! username = Some user ∧ user ≠ "" ∧
    secrets !! password = Some pass ∧ pass ≠ "" ∧
    config = {[ "username" := user; "password" := pass ]}.
Proof.
  intros Hnone. unfold add_provider, has_secret.
  destruct (secrets !! username) as [u|], (secrets !! password) as [pw|]; simpl;
    repeat case_bool_decide; simpl; rewrite ?lookup_insert_eq, ?Hnone;
    (split; [intros [= <-]|intros (u' & p' & Hu & ? & Hp & ? & ->)]);
    simplify_eq; eauto 10.
Qed.

Lemma add_provider_other (secrets : gmap string string)
    (provider username password other : string)
    (configs : gmap string (gmap string string)) :
  other ≠ provider →
  add_provider secrets provider username password configs !! other =
  configs !! other.
Proof.
  intros Hne. unfold add_provider. case_match; [|done].
  by rewrite lookup_insert_ne.
Qed.

(** X17: a provider is configured exactly when both of its credentials
    are bound to non-empty values, and then with these values; no other
    provider is ever configured. *)
Theorem provider_configured (secrets : gmap string string) :
  let configs := build_provider_configs secrets in
  (∀ config,
     configs !! "opensubtitles" = Some config ↔
     ∃ user pass,
       secrets !! "OPENSUBTITLES_USERNAME" = Some user ∧ user ≠ "" ∧
       secrets !! "OPENSUBTITLES_PASSWORD" = Some pass ∧ pass ≠ "" ∧
       config = {[ "username" := user; "password" := pass ]}) ∧
  (∀ config,
     configs !! "addic7ed" = Some config ↔
     ∃ user pass,
       secrets !! "ADDIC7ED_USERNAME" = Some user ∧ user ≠ "" ∧
       secrets !! "ADDIC7ED_PASSWORD" = Some pass ∧ pass ≠ "" ∧
       config = {[ "username" := user; "password" := pass ]}) ∧
  (∀ provider, provider ≠ "opensubtitles" → provider ≠ "addic7ed" →
               configs !! provider = None).
Proof.
  unfold build_provider_configs. split_and!.
  - intros config. rewrite add_provider_other by done.
    by apply add_provider_lookup.
  - intros config. apply add_provider_lookup.
    by rewrite add_provider_other.
  - intros provider H1 H2. by rewrite !add_provider_other.
Qed.

(** ** Subtitle files beside the video *)

Lemma rfind_dot_app (a t : string) :
  rfind_dot t = None → rfind_dot (a +:+ String "." t) = Some (String.length a).
Proof.
  intros Ht. induction a as [|c a IH].
  - change ("" +:+ String "." t) with (String "." t). simpl. by rewrite Ht.
  - change (String c a +:+ String "." t) with (String c (a +:+ String "." t)).
    simpl rfind_dot. by rewrite IH.
Qed.

Lemma substring_all (s : string) : String.substring 0 (String.length s) s = s.
Proof. induction s as [|c s IH]; simpl; [done|]. by rewrite IH. Qed.

Lemma substring_app_skip (a b : string) (n : nat) :
  String.substring (String.length a) n (a +:+ b) = String.substring 0 n b.
Proof.
  induction a as [|c a IH]; [done|].
  change (String c a +:+ b) with (String c (a +:+ b)). simpl. apply IH.
Qed.

Lemma substring_app_prefix (a b : string) :
  String.substring 0 (String.length a) (a +:+ b) = a.
Proof.
  induction a as [|c a IH].
  - change ("" +:+ b) with b. by destruct b.
  - change (String c a +:+ b) with (String c (a +:+ b)). simpl. by rewrite IH.
Qed.

Lemma drop_last_app (a b : string) : drop_last (String.length b) (a +:+ b) = a.
Proof.
  unfold drop_last. rewrite string_length_app.
  replace (String.length a + String.length b - String.length b)
    with (String.length a) by lia.
  apply substring_app_prefix.
Qed.

(** The suffix of a name that ends in ".srt". *)
Lemma suffix_srt (dir : Path) (a : string) :
  a ≠ "" → suffix (dir ++ [a +:+ ".srt"]) = ".srt".
Proof.
  intros Ha. unfold suffix, name. rewrite last_snoc.
  change (default "" (Some (a +:+ ".srt"))) with (a +:+ ".srt").
  rewrite (rfind_dot_app a "srt") by done.
  rewrite string_length_app.
  change (String.length ".srt") with 4.
  assert (0 < String.length a) as Hlen by (destruct a; [done|simpl; lia]).
  rewrite (proj2 (Nat.ltb_lt 0 (String.length a))) by done.
  rewrite (proj2 (Nat.ltb_lt (String.length a) (String.length a + 4 - 1))) by lia.
  replace (String.length a + 4 - String.length a) with 4 by lia.
  by rewrite substring_app_skip.
Qed.

(** What [get_subtitle_path] returns when it returns. *)
Lemma get_subtitle_path_Some (video_path : Path) (lang_code : string) (sub : Path) :
  get_subtitle_path video_path lang_code = Some sub →
  ∃ stem, stem = (if bool_decide (suffix video_path = "") then name video_path
                  else drop_last (String.length (suffix video_path)) (name video_path)) ∧
          sub = removelast video_path ++ [(stem +:+ "." +:+ lang_code) +:+ ".srt"].
Proof.
  unfold get_subtitle_path, with_suffix.
  repeat case_match; try done; intros [= <-]; (eexists; split; [done|]);
    by rewrite <-!string_app_assoc.
Qed.

(** X18: the subtitle file beside a video has the suffix ".srt", so
    [is_video_file] never takes it for a video, whatever the language
    code and the case of the name of the video. *)
Theorem sidecar_not_video (video_path : Path) (lang_code : string) (sub : Path) :
  get_subtitle_path video_path lang_code = Some sub →
  suffix sub = ".srt" ∧ ∀ is_file, is_video_file is_file sub = false.
Proof.
  intros (stem & _ & ->)%get_subtitle_path_Some.
  assert (suffix (removelast video_path ++ [(stem +:+ "." +:+ lang_code) +:+ ".srt"])
          = ".srt") as Hsuffix.
  { apply suffix_srt. intros Hnil. apply (f_equal String.length) in Hnil.
    rewrite string_length_app in Hnil. simpl in Hnil. lia. }
  split; [done|]. intros is_file. unfold is_video_file. rewrite Hsuffix.
  by rewrite andb_false_r.
Qed.

Lemma sidecar_not_video_witness :
  suffix ["lib"; "Clip.spa.srt"] = ".srt" ∧
  ∀ is_file, is_video_file is_file ["lib"; "Clip.spa.srt"] = false.
Proof.
  apply (sidecar_not_video ["lib"; "Clip.MKV"] "spa"). reflexivity.
Defined.

Lemma string_app_inj_r (a b t : string) : a +:+ t = b +:+ t → a = b.
Proof.
  revert b. induction a as [|c a IH]; intros [|c' b] Heq; try done.
  - apply (f_equal String.length) in Heq.
    rewrite !string_length_app in Heq. simpl in Heq. lia.
  - apply (f_equal String.length) in Heq.
    rewrite !string_length_app in Heq. simpl in Heq. lia.
  - change (String c a +:+ t) with (String c (a +:+ t)) in Heq.
    change (String c' b +:+ t) with (String c' (b +:+ t)) in Heq.
    injection Heq as -> Heq. by rewrite (IH b Heq).
Qed.

(** X19: the subtitle files of one video lie in its directory, and two
    language codes give the same file only when they are equal. *)
Theorem sidecar_per_language (video_path : Path) (lang1 lang2 : string)
    (sub1 sub2 : Path) :
  get_subtitle_path video_path lang1 = Some sub1 →
  get_subtitle_path video_path lang2 = Some sub2 →
  removelast sub1 = removelast video_path ∧ (sub1 = sub2 ↔ lang1 = lang2).
Proof.
  intros (stem1 & Hstem1 & ->)%get_subtitle_path_Some
         (stem2 & Hstem2 & ->)%get_subtitle_path_Some.
  rewrite <-Hstem1 in Hstem2. subst stem2.
  split; [by rewrite removelast_last|]. split.
  - intros [_ Heq]%app_inj_tail.
    apply string_app_inj_r, String.app_inj in Heq. by injection Heq.
  - by intros ->.
Qed.

Lemma sidecar_per_language_witness :
  removelast ["lib"; "movie.spa.srt"] = removelast ["lib"; "movie.mkv"] ∧
  (["lib"; "movie.spa.srt"] = ["lib"; "movie.eng.srt"] ↔ "spa" = "eng").
Proof.
  apply (sidecar_per_language ["lib"; "movie.mkv"] "spa" "eng"); reflexivity.
Defined.

(** X20: the subtitle file of a video is named after the stem of the
    video: two videos of one directory whose names differ in the suffix
    only share their subtitle files. *)
Theorem sidecar_shared_by_stem (dir : Path) (stem ext1 ext2 lang_code : string) :
  ext1 ≠ "" → ext2 ≠ "" →
  suffix (dir ++ [stem +:+ ext1]) = ext1 →
  suffix (dir ++ [stem +:+ ext2]) = ext2 →
  get_subtitle_path (dir ++ [stem +:+ ext1]) lang_code =
  get_subtitle_path (dir ++ [stem +:+ ext2]) lang_code.
Proof.
  intros H1 H2 Hs1 Hs2. unfold get_subtitle_path, with_suffix.
  rewrite Hs1, Hs2. unfold name. rewrite !last_snoc, !removelast_last. simpl default.
  rewrite !drop_last_app.
  rewrite (bool_decide_false (ext1 = "")), (bool_decide_false (ext2 = "")) by done.
  assert (∀ ext, ext ≠ "" → bool_decide (stem +:+ ext = "") = false) as Hname.
  { intros ext Hext. apply bool_decide_false. intros Hnil.
    apply (f_equal String.length) in Hnil. rewrite string_length_app in Hnil.
    destruct ext; [done|]. simpl in Hnil. lia. }
  by rewrite !Hname.
Qed.

Lemma sidecar_shared_by_stem_witness :
  get_subtitle_path (["lib"] ++ ["movie" +:+ ".mkv"]) "spa" =
  get_subtitle_path (["lib"] ++ ["movie" +:+ ".mp4"]) "spa".
Proof.
  apply (sidecar_shared_by_stem ["lib"] "movie" ".mkv" ".mp4" "spa");
    (reflexivity || discriminate).
Defined.

(** ** Conversion to UTF-8 *)

Lemma lower_app (a b : string) : lower (a +:+ b) = lower a +:+ lower b.
Proof.
  induction a as [|c a IH]; [done|].
  change (String c a +:+ b) with (String c (a +:+ b)). simpl lower.
  by rewrite IH.
Qed.

Lemma lower_length (s : string) : String.length (lower s) = String.length s.
Proof. induction s as [|c s IH]; simpl; [done|]. by rewrite IH. Qed.

Lemma ends_with_app (a tail : string) : ends_with (a +:+ tail) tail = true.
Proof.
  unfold ends_with. rewrite string_length_app.
  replace (String.length a + String.length tail - String.length tail)
    with (String.length a) by lia.
  rewrite substring_app_skip, substring_all.
  rewrite bool_decide_true by done.
  rewrite (proj2 (Nat.leb_le _ _)) by lia. done.
Qed.

(** X21: a byte-order-mark suffix of the detected encoding, "-sig" in
    any case, is cut off before the encoding is passed to iconv; when
    nothing is left of the detected encoding, the fallback is used. *)
Theorem bom_suffix_removed (enc sig fallback : string) :
  lower sig = "-sig" →
  encoding_to_use (Some (enc +:+ sig)) fallback =
    if bool_decide (enc = "") then fallback else enc.
Proof.
  intros Hsig.
  assert (String.length sig = 4) as Hlen by by rewrite <-lower_length, Hsig.
  unfold encoding_to_use.
  rewrite lower_app, Hsig, ends_with_app.
  rewrite bool_decide_true.
  - simpl andb. cbv iota. rewrite <-Hlen, drop_last_app.
    destruct (decide (enc = "")) as [->|Hne]; [done|].
    rewrite (bool_decide_true (enc ≠ "")) by done.
    by rewrite (bool_decide_false (enc = "")) by done.
  - intros Hnil. apply (f_equal String.length) in Hnil.
    rewrite string_length_app, Hlen in Hnil. simpl in Hnil. lia.
Qed.

Lemma bom_suffix_removed_witness :
  encoding_to_use (Some ("UTF-8" +:+ "-SIG")) "ISO-8859-1" =
    if bool_decide ("UTF-8" = "") then "ISO-8859-1" else "UTF-8".
Proof. apply (bom_suffix_removed "UTF-8" "-SIG" "ISO-8859-1"). reflexivity. Defined.

(** X22: [convert_to_utf8] returns True exactly when the detection, the
    run of iconv and the replacement all went through.  It writes the
    converted text to the path of the subtitle extended by ".utf8",
    which is another path, and moves it over the subtitle only after
    iconv succeeded. *)
Theorem conversion_outcome (detect : result (option string))
    (iconv replace : result unit) (subtitle_path fallback : string) :
  let run := convert_to_utf8 detect iconv replace subtitle_path fallback in
  (run.1 = true ↔ (∃ d, detect = Ok d) ∧ iconv = Ok () ∧ replace = Ok ()) ∧
  (∀ src dst, Replace src dst ∈ run.2 →
     iconv = Ok () ∧ src = subtitle_path +:+ ".utf8" ∧ dst = subtitle_path ∧
     src ≠ dst) ∧
  (∀ cmd, Iconv cmd ∈ run.2 →
     cmd !! 5 = Some subtitle_path ∧
     cmd !! 7 = Some (subtitle_path +:+ ".utf8")).
Proof.
  assert (subtitle_path +:+ ".utf8" ≠ subtitle_path) as Hne.
  { intros Heq. apply (f_equal String.length) in Heq.
    rewrite string_length_app in Heq. simpl in Heq. lia. }
  assert (∀ (x : conversion) l, x ∈ l →
            match l with
            | [] => False
            | [a] => x = a
            | [a; b] => x = a ∨ x = b
            | _ => True
            end) as Hcases.
  { intros x [|a [|b [|? ?]]] Hin; try done.
    - by apply elem_of_nil in Hin.
    - by apply list_elem_of_singleton in Hin.
    - apply elem_of_cons in Hin as [?|Hin]; [by left|].
      right. by apply list_elem_of_singleton in Hin. }
  split_and!.
  - split.
    + destruct detect as [d|e], iconv as [[]|e1], replace as [[]|e2]; simpl;
        try done. intros _. by eauto.
    + by intros ([d ->] & -> & ->).
  - intros src dst Hin%Hcases.
    destruct detect as [d|e], iconv as [[]|e1], replace as [[]|e2];
      simpl in Hin; try done;
      try (destruct Hin as [[=]|[= -> ->]]; done); discriminate Hin.
  - intros cmd Hin%Hcases.
    destruct detect as [d|e], iconv as [[]|e1], replace as [[]|e2];
      simpl in Hin; try done;
      try (destruct Hin as [[= ->]|[=]]; done); by injection Hin as ->.
Qed.

(** ** The batch *)

Lemma main_loop_snoc (videos : list (string * result (bool * bool)))
    (video_name : string) (outcome : result (bool * bool)) :
  main_loop (videos ++ [(video_name, outcome)]) =
  match outcome with
  | Ok (success, has_spanish) =>
      (if success : bool then (main_loop videos).1 + 1 else (main_loop videos).1,
       if has_spanish : bool then (main_loop videos).2
       else (main_loop videos).2 ++ [video_name])
  | Raise _ => ((main_loop videos).1, (main_loop videos).2 ++ [video_name])
  end.
Proof.
  unfold main_loop. rewrite foldl_app. simpl.
  destruct (foldl _ _ videos) as [count missing].
  by destruct outcome as [[[] []]|].
Qed.

Lemma main_loop_count (videos : list (string * result (bool * bool))) :
  (main_loop videos).1 ≤ length videos ∧
  ((main_loop videos).1 = length videos ↔
   ∀ video_name outcome, (video_name, outcome) ∈ videos →
     ∃ has_spanish, outcome = Ok (true, has_spanish)).
Proof.
  induction videos as [|[video_name outcome] videos [IHle IH]] using rev_ind.
  - split; [done|]. split; [|done]. by intros _ ? ? ?%elem_of_nil.
  - rewrite main_loop_snoc, length_app. simpl length.
    destruct outcome as [[[] has_spanish]|e]; simpl; (split; [lia|]).
    + split.
      * intros Hcount. assert ((main_loop videos).1 = length videos) as Hall by lia.
        intros n o [Hin|Hin]%elem_of_app; [by eapply IH|].
        apply list_elem_of_singleton in Hin as [= -> ->]. by eexists.
      * intros Hall. assert ((main_loop videos).1 = length videos); [|lia].
        apply IH. intros n o Hin. eapply Hall, elem_of_app. by left.
    + split; [lia|]. intros Hall.
      destruct (Hall video_name (Ok (false, has_spanish))) as [? [=]].
      apply elem_of_app. right. by left.
    + split; [lia|]. intros Hall.
      destruct (Hall video_name (Raise e)) as [? [=]].
      apply elem_of_app. right. by left.
Qed.

(** X23: after the loop [main] returns 0 exactly when the body ran for
    every video without an exception and [process_video] reported
    success for it; a video whose processing raised counts as failed. *)
Theorem exit_code_zero (videos : list (string * result (bool * bool))) :
  main_exit videos = 0 ↔
  ∀ video_name outcome, (video_name, outcome) ∈ videos →
    ∃ has_spanish, outcome = Ok (true, has_spanish).
Proof.
  destruct (main_loop_count videos) as [_ <-]. unfold main_exit.
  destruct (Nat.eqb_spec (main_loop videos).1 (length videos)); split; done.
Qed.

(** X24: the videos reported as missing Spanish subtitles are, in the
    order of the batch, those whose processing raised and those for
    which [process_video] reported no Spanish subtitles, whether it
    succeeded or not. *)
Theorem missing_spanish_report (videos : list (string * result (bool * bool))) :
  (main_loop videos).2 = (filter (λ video, lacks_spanish video.2) videos).*1.
Proof.
  induction videos as [|[video_name outcome] videos IH] using rev_ind; [done|].
  rewrite main_loop_snoc, filter_app, fmap_app, <-IH.
  destruct outcome as [[success []]|e].
  - rewrite filter_cons_False by (simpl; tauto).
    by rewrite filter_nil, app_nil_r.
  - by rewrite filter_cons_True by done.
  - by rewrite filter_cons_True by done.
Qed.

(** ** Subtitle files across the move to Originals/ *)

(** X25: [main] moves the subtitle file of a video into Originals/
    under its own name, and that is where [process_video] looks for the
    subtitle file of the moved video. *)
Theorem moved_sidecar_found (target_path video_path : Path)
    (lang_code : string) (sub : Path) :
  get_subtitle_path video_path lang_code = Some sub →
  get_subtitle_path (original_in_originals target_path video_path) lang_code =
    Some (truediv (truediv target_path "Originals") (name sub)).
Proof.
  unfold get_subtitle_path, with_suffix, original_in_originals.
  assert (suffix (truediv (truediv target_path "Originals") (name video_path)) =
          suffix video_path) as ->.
  { unfold suffix. by rewrite name_truediv. }
  rewrite name_truediv. unfold truediv at 1. rewrite removelast_last.
  repeat case_match; try done; intros [= <-]; f_equal;
    unfold truediv, name; by rewrite last_snoc.
Qed.

Lemma moved_sidecar_found_witness :
  get_subtitle_path (original_in_originals ["lib"] ["lib"; "movie.mkv"]) "spa" =
    Some (truediv (truediv ["lib"] "Originals") (name ["lib"; "movie.spa.srt"])).
Proof.
  apply (moved_sidecar_found ["lib"] ["lib"; "movie.mkv"] "spa"). reflexivity.
Defined.

(** ** A supplied file for the preferred language *)

(** X26: when a file is supplied for the preferred language and exists,
    the function remuxes and the first track is that new file: it takes
    the place of every embedded stream of the language. *)
Theorem supplied_spanish_first (exists_ : Path → bool) (p : probe)
    (video_path : Path) (files : list (string * Path)) (path : Path) (pl : plan) :
  ("spa", path) ∈ files →
  exists_ path = true →
  plan_subtitles exists_ p video_path files = Ok pl →
  ∃ codec all_subs first,
    pl = Remux codec all_subs ∧ head all_subs = Some first ∧
    lang first = "spa" ∧ is_new first = true ∧
    (∀ item, item ∈ all_subs → lang item = "spa" → is_new item = true).
Proof.
  intros Hin Hex Hplan.
  assert (preferred_supplied exists_ files) as Hsup.
  { exists path. split; [done|]. by rewrite Hex. }
  assert (∀ existing_subs cands item,
            candidates exists_ existing_subs files = Ok cands →
            item ∈ cands → lang item = "spa" → is_new item = true) as Hnew.
  { intros existing_subs cands item Hc Hitem Hl.
    unfold candidates in Hc. bind_inv Hc. injection Hc as <-.
    apply elem_of_app in Hitem as [Hitem|Hitem].
    - apply (elem_of_existing_items _ _ _ _ Ha) in Hitem
        as (info & l & _ & _ & Hkey & ->).
      unfold lang in Hl. simpl in Hl. subst l. destruct Hkey.
      by apply (list_elem_of_fmap_2 fst) in Hin.
    - by apply elem_of_new_items in Hitem as (i & entry & _ & ->). }
  destruct pl as [|codec all_subs].
  - destruct (plan_subtitles_Ok _ _ _ _ _ Hplan)
      as (existing_subs & Hp & [[_ [->|Hc]]|(? & _ & _ & [=])]).
    + by apply elem_of_nil in Hin.
    + apply (preferred_candidate exists_) in Hc as [_ Hpref].
      destruct Hpref as (item & ?%elem_of_nil & _); [by right|done].
  - apply plan_subtitles_Remux in Hplan
      as (existing_subs & cands & Hp & Hc & _ & _ & ->).
    destruct (head_preferred cands) as (first & Hhead & Hfirst & Hfp);
      [apply (preferred_candidate exists_ _ _ _ Hc); by right|].
    eexists _, _, first. split_and!; try done.
    + by eapply Hnew.
    + intros item [Hitem|Hitem]%elem_of_app Hl;
        apply list_elem_of_filter in Hitem as [_ Hitem]; by eapply Hnew.
Qed.

Lemma supplied_spanish_first_witness :
  ∃ codec all_subs first,
    Remux "srt" [(1, 0, "spa", true); (0, 1, "eng", false)] = Remux codec all_subs ∧
    head all_subs = Some first ∧
    lang first = "spa" ∧ is_new first = true ∧
    (∀ item, item ∈ all_subs → lang item = "spa" → is_new item = true).
Proof.
  apply (supplied_spanish_first all_present (probe_of ["spa"; "eng"]) movie
           [("spa", spa_srt)] spa_srt).
  - by left.
  - reflexivity.
  - reflexivity.
Defined.
